(** * yt_frame_compiler: a shallow embedding and its verified properties

    The development follows the package layout of the program:
    [models.py], [cache.py], [youtube.py], [frames.py], [video.py] and
    [cli.py].  Python values are embedded as follows.

    - [int] is [Z]; [float] is an exact rational [Q] (rounding of binary
      floating point is abstracted; every inequality used below has a
      margin far above one unit in the last place);
    - [str] is [string]; [Path] is the list of its components;
    - [Optional[T]] is [option T];
    - an operation that can raise returns [py T], with the exception class
      as an inductive value;
    - a [dict] keyed by strings is a [gmap string _];
    - the file system and the external programs (yt-dlp, ffmpeg, OpenCV)
      are an explicit world value threaded through the code. *)

From Stdlib Require Import NArith ZArith QArith Qabs Qminmax Qround Lqa Lia.
From Stdlib Require Import List String Ascii Bool.
From stdpp Require Import gmap strings list sorting.

Import ListNotations.
Local Open Scope string_scope.
Local Open Scope list_scope.

(** ** Python results: a value or a raised exception

    [Untyped] is no exception of Python: it marks a value whose run-time
    type is outside the annotations of the program (a [VideoMetadata] whose
    [video_id] would be a number, say).  Python carries on with such a
    value; the typed model stops there. *)

Module Py.

Inductive exn : Type :=
| TypeError
| AttributeError
| ValueError
| UnicodeDecodeError
| JSONDecodeError
| OSError
| Untyped
| DependencyError (msg : string)
| ChannelFetchError (msg : string)
| FrameExtractionError (msg : string)
| VideoCompilationError (msg : string).

Inductive py (A : Type) : Type :=
| Ret (a : A)
| Raise (e : exn).

Arguments Ret {A} a.
Arguments Raise {A} e.

Definition bind {A B : Type} (m : py A) (k : A -> py B) : py B :=
  match m with
  | Ret a => k a
  | Raise e => Raise e
  end.

Definition raises {A : Type} (m : py A) : Prop :=
  exists e, m = Raise e.

Definition returns {A : Type} (m : py A) : Prop :=
  exists a, m = Ret a.

End Py.

Import Py.

#[global] Instance py_ret : MRet py := @Ret.
#[global] Instance py_bind : MBind py := fun A B k m => Py.bind m k.

(** ** datetime: naive date-times as the program handles them *)

Module Datetime.

Local Open Scope N_scope.

Record datetime : Type := mkDatetime {
  year : N; month : N; day : N;
  hour : N; minute : N; second : N; microsecond : N
}.

Definition is_leap (y : N) : bool :=
  ((y mod 4 =? 0) && negb (y mod 100 =? 0)) || (y mod 400 =? 0).

Definition days_in_month (y m : N) : N :=
  match m with
  | 1 | 3 | 5 | 7 | 8 | 10 | 12 => 31
  | 4 | 6 | 9 | 11 => 30
  | 2 => if is_leap y then 29 else 28
  | _ => 0
  end.

(** The ranges the [datetime] constructor enforces. *)
Definition valid (d : datetime) : bool :=
  (1 <=? year d) && (year d <=? 9999)
  && (1 <=? month d) && (month d <=? 12)
  && (1 <=? day d) && (day d <=? days_in_month (year d) (month d))
  && (hour d <? 24) && (minute d <? 60) && (second d <? 60)
  && (microsecond d <? 1000000).

(** [datetime.max] *)
Definition max : datetime := mkDatetime 9999 12 31 23 59 59 999999.

Definition fields (d : datetime) : list N :=
  [year d; month d; day d; hour d; minute d; second d; microsecond d].

Fixpoint lex_compare (a b : list N) : comparison :=
  match a, b with
  | [], [] => Eq
  | [], _ :: _ => Lt
  | _ :: _, [] => Gt
  | x :: a', y :: b' =>
      match N.compare x y with
      | Eq => lex_compare a' b'
      | c => c
      end
  end.

(** Chronological comparison of naive date-times. *)
Definition compare (d1 d2 : datetime) : comparison :=
  lex_compare (fields d1) (fields d2).

(** *** [isoformat] and [fromisoformat] *)

Definition digit (n : N) : ascii := ascii_of_N (48 + n).

Definition digit_val (c : ascii) : option N :=
  let n := N_of_ascii c in
  if (48 <=? n) && (n <=? 57) then Some (n - 48) else None.

Definition pad2 (n : N) : list ascii :=
  [digit (n / 10 mod 10); digit (n mod 10)].

Definition pad4 (n : N) : list ascii :=
  [digit (n / 1000 mod 10); digit (n / 100 mod 10);
   digit (n / 10 mod 10); digit (n mod 10)].

Definition pad6 (n : N) : list ascii :=
  [digit (n / 100000 mod 10); digit (n / 10000 mod 10);
   digit (n / 1000 mod 10); digit (n / 100 mod 10);
   digit (n / 10 mod 10); digit (n mod 10)].

Fixpoint parse_digits_from (acc : N) (cs : list ascii) : option N :=
  match cs with
  | [] => Some acc
  | c :: cs' =>
      match digit_val c with
      | Some v => parse_digits_from (10 * acc + v) cs'
      | None => None
      end
  end.

Definition parse_digits (cs : list ascii) : option N :=
  parse_digits_from 0 cs.

(** [d.isoformat()]: [YYYY-MM-DDTHH:MM:SS], followed by [.ffffff] when the
    microsecond field is not zero. *)
Definition isoformat_chars (d : datetime) : list ascii :=
  pad4 (year d) ++ ["-"%char] ++ pad2 (month d) ++ ["-"%char] ++ pad2 (day d)
  ++ ["T"%char]
  ++ pad2 (hour d) ++ [":"%char] ++ pad2 (minute d) ++ [":"%char]
  ++ pad2 (second d)
  ++ (if microsecond d =? 0 then [] else "."%char :: pad6 (microsecond d)).

Definition isoformat (d : datetime) : string :=
  string_of_list_ascii (isoformat_chars d).

Definition is_char (c : ascii) (x : ascii) : bool := Ascii.eqb c x.

Definition checked (d : datetime) : py datetime :=
  if valid d then Ret d else Raise ValueError.

(** [datetime.fromisoformat(s)] on the forms [isoformat] writes for a naive
    date-time, and on the date-only form; every other string raises
    [ValueError].  (Python also reads hour-only and minute-only times,
    millisecond fractions and UTC offsets, none of which the program ever
    writes; they are outside this model.) *)
Definition fromisoformat (s : string) : py datetime :=
  match list_ascii_of_string s with
  | y1 :: y2 :: y3 :: y4 :: s1 :: m1 :: m2 :: s2 :: d1 :: d2 :: rest =>
      match parse_digits [y1; y2; y3; y4], parse_digits [m1; m2],
            parse_digits [d1; d2] with
      | Some y, Some m, Some d =>
          if is_char "-" s1 && is_char "-" s2 then
            match rest with
            | [] => checked (mkDatetime y m d 0 0 0 0)
            | _ :: h1 :: h2 :: c1 :: n1 :: n2 :: c2 :: e1 :: e2 :: frac =>
                match parse_digits [h1; h2], parse_digits [n1; n2],
                      parse_digits [e1; e2] with
                | Some h, Some n, Some e =>
                    if is_char ":" c1 && is_char ":" c2 then
                      match frac with
                      | [] => checked (mkDatetime y m d h n e 0)
                      | p :: f1 :: f2 :: f3 :: f4 :: f5 :: f6 :: [] =>
                          match parse_digits [f1; f2; f3; f4; f5; f6] with
                          | Some u =>
                              if is_char "." p
                              then checked (mkDatetime y m d h n e u)
                              else Raise ValueError
                          | None => Raise ValueError
                          end
                      | _ => Raise ValueError
                      end
                    else Raise ValueError
                | _, _, _ => Raise ValueError
                end
            | _ => Raise ValueError
            end
          else Raise ValueError
      | _, _, _ => Raise ValueError
      end
  | _ => Raise ValueError
  end.

End Datetime.

Import Datetime.

(** ** models.py *)

Module Models.

(** A [pathlib.Path], as the list of its components. *)
Definition Path : Type := list string.

Record VideoMetadata : Type := mkVideoMetadata {
  video_id : string;
  title : string;
  url : string;
  upload_date : option datetime;
  duration : option Z;
  position : Z
}.

Module FrameResult.

Record t : Type := mk {
  metadata : VideoMetadata;
  frame_path : Path;
  upload_date : option datetime
}.

(** The keyword arguments of one call of the generated [__init__].  The
    dataclass declares no default, so each of the three fields is a
    required argument: a call that leaves one out raises [TypeError]. *)
Record kwargs : Type := mkKwargs {
  kw_metadata : option VideoMetadata;
  kw_frame_path : option Path;
  kw_upload_date : option (option datetime)
}.

Definition init (kw : kwargs) : py t :=
  match kw_metadata kw, kw_frame_path kw, kw_upload_date kw with
  | Some m, Some p, Some u => Ret (mk m p u)
  | _, _, _ => Raise TypeError
  end.

End FrameResult.

End Models.

Import Models.

(** ** JSON values, as [json.loads] returns them *)

Module Json.

Inductive json : Type :=
| JNull
| JBool (b : bool)
| JInt (z : Z)
| JFloat (q : Q)
| JStr (s : string)
| JArr (items : list json)
| JObj (items : list (string * json)).

(** Truth value of a Python object ([if x:], [not x], [x or y]). *)
Definition truthy (j : json) : bool :=
  match j with
  | JNull => false
  | JBool b => b
  | JInt z => negb (z =? 0)%Z
  | JFloat q => negb (Qeq_bool q 0)
  | JStr s => negb (String.eqb s "")
  | JArr l => match l with [] => false | _ => true end
  | JObj l => match l with [] => false | _ => true end
  end.

Fixpoint assoc (k : string) (l : list (string * json)) : option json :=
  match l with
  | [] => None
  | (k', v) :: l' => if String.eqb k k' then Some v else assoc k l'
  end.

(** [value.get(key, default)]: only a [dict] has the method. *)
Definition get (j : json) (k : string) (default : json) : py json :=
  match j with
  | JObj l => Ret (match assoc k l with Some v => v | None => default end)
  | _ => Raise AttributeError
  end.

(** [for item in value]: a list gives its items, a dict its keys, a string
    its characters; [None], numbers and booleans are not iterable. *)
Definition iter (j : json) : py (list json) :=
  match j with
  | JArr l => Ret l
  | JObj l => Ret (map (fun kv => JStr (fst kv)) l)
  | JStr s => Ret (map (fun c => JStr (String c EmptyString)) (list_ascii_of_string s))
  | _ => Raise TypeError
  end.

(** [value == n] for an [int] constant [n]. *)
Definition eq_int (j : json) (n : Z) : bool :=
  match j with
  | JInt z => (z =? n)%Z
  | JBool b => ((if b then 1 else 0) =? n)%Z
  | JFloat q => Qeq_bool q (inject_Z n)
  | _ => false
  end.

End Json.

Import Json.

(** ** The information dictionaries of yt-dlp *)

Module Ydl.

(** One information dictionary, with the keys the program reads.  An
    [entries] list may hold [None] and empty dictionaries; both are falsy,
    and both are the [None] of [option entry] here. *)
Inductive entry : Type := mkEntry {
  e_webpage_url : option string;
  e_url : option string;
  e_duration : option Q;
  e_upload_date : option string;
  e_timestamp : option Q;
  e_release_timestamp : option Q;
  e_id : option string;
  e_display_id : option string;
  e_title : option string;
  e_live_status : option string;
  e_entries : option (list (option entry))
}.

(** What [ydl.extract_info] does: it returns an information dictionary, or
    [None] (errors are ignored and nothing was found), or raises
    [DownloadError] with a message. *)
Inductive outcome : Type :=
| Info (info : option entry)
| DownloadError (message : string).

End Ydl.

Import Ydl.

(** ** The world outside the program *)

Module World.

(** What one extraction task comes to, as [cli.main] sees it: the frame was
    written and the download reported these date fields, or the task raised
    [FrameExtractionError] with a reason, or it raised something else. *)
Inductive task : Type :=
| Extracted (info_upload_date : option datetime)
| Failed (reason : string)
| Crashed (reason : string).

Record world : Type := mkWorld {
  (** [_cache_root()]: the cache directory the environment selects *)
  cache_root : Path;
  (** [hashlib.sha256(s.encode("utf-8")).hexdigest()] *)
  sha256_hex : string -> string;
  (** [datetime.utcnow()] *)
  utcnow : datetime;
  (** [datetime.strptime(s, "%Y%m%d")], [None] on [ValueError] *)
  strptime_Ymd : string -> option datetime;
  (** [datetime.utcfromtimestamp(t)], [None] on [ValueError] or [OSError] *)
  utcfromtimestamp : Q -> option datetime;
  (** the message of [ensure_dependencies], when something is missing *)
  missing_dependencies : option string;
  (** [multiprocessing.cpu_count()] *)
  cpu_count : Z;
  (** [ydl.extract_info(channel_url, download=False)]: by whether browser
      cookies are configured, and by the number of earlier calls *)
  extract_info : string -> bool -> nat -> Ydl.outcome;
  (** whether [shutil.rmtree] raises *)
  rmtree_fails : bool;
  (** whether writing [metadata.json] raises *)
  write_fails : bool;
  (** what the extraction of one video comes to *)
  extraction : VideoMetadata -> task;
  (** the order in which the submitted tasks complete *)
  as_completed : list VideoMetadata -> list VideoMetadata;
  (** whether [cv2.VideoWriter] opens the output file *)
  writer_opens : bool;
  (** whether [cv2.imread] can read a frame image *)
  imread : Path -> bool
}.

End World.

Import World.

(** ** frames.py: the capture timestamp *)

Module Frames.

Local Open Scope Q_scope.

(** [math.isclose(a, b)] with its defaults [rel_tol=1e-09], [abs_tol=0.0]:
    equal arguments are close; otherwise the difference is compared with
    the tolerance scaled by either argument. *)
Definition rel_tol : Q := 1 # 1000000000.
Definition abs_tol : Q := 0.

Definition isclose (a b : Q) : bool :=
  Qeq_bool a b
  || Qle_bool (Qabs (b - a)) (Qabs (rel_tol * b))
  || Qle_bool (Qabs (b - a)) (Qabs (rel_tol * a))
  || Qle_bool (Qabs (b - a)) abs_tol.

(** [not duration_seconds or duration_seconds <= 0] *)
Definition no_duration (duration_seconds : option Z) : bool :=
  match duration_seconds with
  | None => true
  | Some d => (d =? 0)%Z || (d <=? 0)%Z
  end.

Definition _calculate_timestamp (duration_seconds : option Z) (percent : Q) : Q :=
  let bounded := Qmax 0 (Qmin percent 100) in
  match duration_seconds with
  | None => 0
  | Some d =>
      if no_duration (Some d) then 0
      else if isclose bounded 100 then Qmax (inject_Z d - (1 # 10)) 0
      else inject_Z d * (bounded / 100)
  end.

(** [_determine_window(target, duration)] *)
Definition _determine_window (target : Q) (duration : option Z) : Q * Q :=
  let window := 3 # 2 in
  let start := Qmax 0 (target - window) in
  let end_ := target + window in
  let end_ :=
    match duration with
    | Some d => if (d =? 0)%Z then end_ else Qmin end_ (inject_Z d)
    | None => end_
    end in
  let end_ := if Qlt_le_dec (end_ - start) (3 # 4) then start + (3 # 4) else end_ in
  (start, end_).

(** The last statement of [extract_first_frame], reached once the frame
    file is written: [upload_date] is what the download reported
    ([info_upload_date]: its [upload_date], else its [release_timestamp]),
    else the one of the metadata. *)
Definition frame_result (metadata : VideoMetadata) (frame_dir : Path)
  (info_upload_date : option datetime) : py FrameResult.t :=
  let frame_path := frame_dir ++ [(video_id metadata ++ ".png")%string] in
  let upload_date :=
    match info_upload_date with
    | Some d => Some d
    | None => upload_date metadata
    end in
  FrameResult.init
    (FrameResult.mkKwargs (Some metadata) (Some frame_path) (Some upload_date)).


End Frames.

(** ** The file system *)

Module Fs.

(** The text of a file, as far as [json.loads] tells texts apart. *)
Inductive text : Type :=
| Dumps (j : json)   (** [json.dumps(j)]: a JSON document *)
| Empty              (** no character at all *)
| Junk.              (** any other text: no JSON document *)

Inductive content : Type :=
| Text (t : text)
| Bytes              (** data that is no UTF-8 text, such as an image *)
| Unreadable.        (** the path exists and reading it raises [OSError] *)

Record fs : Type := mkFs {
  files : gmap Path content;
  dirs : gset Path
}.

Definition empty : fs := mkFs ∅ ∅.

(** [path.exists()] *)
Definition exists_ (s : fs) (p : Path) : bool :=
  bool_decide (is_Some (files s !! p)) || bool_decide (p ∈ dirs s).

Fixpoint prefixes (p : Path) : list Path :=
  match p with
  | [] => [[]]
  | x :: p' => [] :: map (cons x) (prefixes p')
  end.

(** [path.mkdir(parents=True, exist_ok=True)] *)
Definition mkdir (s : fs) (p : Path) : fs :=
  mkFs (files s) (dirs s ∪ list_to_set (prefixes p)).

(** [shutil.rmtree(path)]: the directory and everything below it. *)
Definition rmtree (s : fs) (p : Path) : fs :=
  mkFs (filter (fun kv => ¬ p `prefix_of` fst kv) (files s))
       (filter (fun d => ¬ p `prefix_of` d) (dirs s)).

(** [path.read_text(encoding="utf-8")] *)
Definition read_text (s : fs) (p : Path) : py text :=
  match files s !! p with
  | Some (Text t) => Ret t
  | Some Bytes => Raise UnicodeDecodeError
  | Some Unreadable => Raise OSError
  | None => Raise OSError
  end.

(** [json.loads(text)] *)
Definition json_loads (t : text) : py json :=
  match t with
  | Dumps j => Ret j
  | Empty | Junk => Raise JSONDecodeError
  end.

(** The steps of the operating system that change files.  [Truncate] is
    what [open(path, "w")] does before the first character is written. *)
Inductive op : Type :=
| Mkdir (p : Path)
| Truncate (p : Path)
| Write (p : Path) (t : text)
| Rename (src dst : Path).

Definition apply (s : fs) (o : op) : fs :=
  match o with
  | Mkdir p => mkdir s p
  | Truncate p => mkFs (<[p := Text Empty]> (files s)) (dirs s)
  | Write p t => mkFs (<[p := Text t]> (files s)) (dirs s)
  | Rename src dst =>
      match files s !! src with
      | Some c => mkFs (<[dst := c]> (delete src (files s))) (dirs s)
      | None => s
      end
  end.

Definition run (ops : list op) (s : fs) : fs := fold_left apply ops s.

(** [path.write_text(data)] is [with open(path, "w") as f: f.write(data)]:
    the file is emptied when it is opened and filled afterwards. *)
Definition write_text (p : Path) (t : text) : list op :=
  [Truncate p; Write p t].

End Fs.

(** ** cache.py *)

Module Cache.

Definition CACHE_VERSION : Z := 1.

Definition _channel_key (w : world) (channel_url : string) : string :=
  String.substring 0 16 (sha256_hex w channel_url).

Definition channel_cache_dir (w : world) (channel_url : string) : Path :=
  cache_root w ++ [_channel_key w channel_url].

Definition _metadata_path (w : world) (channel_url : string) : Path :=
  channel_cache_dir w channel_url ++ ["metadata.json"].

Definition serialize_video (video : VideoMetadata) : json :=
  JObj [("video_id", JStr (video_id video));
        ("title", JStr (title video));
        ("url", JStr (url video));
        ("upload_date",
          match upload_date video with
          | Some d => JStr (isoformat d)
          | None => JNull
          end);
        ("duration",
          match duration video with
          | Some n => JInt n
          | None => JNull
          end);
        ("position", JInt (position video))].

Definition serialize_videos (w : world) (videos : list VideoMetadata) : json :=
  JObj [("version", JInt CACHE_VERSION);
        ("generated_at", JStr (isoformat (utcnow w)));
        ("videos", JArr (map serialize_video videos))].

(** The values a field of [VideoMetadata] is annotated with. *)
Definition as_str (j : json) : py string :=
  match j with JStr s => Ret s | _ => Raise Untyped end.

Definition as_int (j : json) : py Z :=
  match j with JInt z => Ret z | _ => Raise Untyped end.

Definition as_optional_int (j : json) : py (option Z) :=
  match j with JNull => Ret None | JInt z => Ret (Some z) | _ => Raise Untyped end.

(** The parsing of [upload_raw]: [None] unless the value is truthy; a
    [ValueError] of [fromisoformat] is caught, its [TypeError] on a value
    that is no string is not. *)
Definition parse_upload_raw (upload_raw : json) : py (option datetime) :=
  if truthy upload_raw then
    match upload_raw with
    | JStr s =>
        match fromisoformat s with
        | Ret d => Ret (Some d)
        | Raise ValueError => Ret None
        | Raise e => Raise e
        end
    | _ => Raise TypeError
    end
  else Ret None.

(** One turn of the loop of [deserialize_videos], [items] being the list
    built so far. *)
Definition deserialize_item (items : list VideoMetadata) (item : json)
  : py (list VideoMetadata) :=
  upload_raw ← get item "upload_date" JNull;
  upload_date ← parse_upload_raw upload_raw;
  video_id ← get item "video_id" JNull;
  url ← get item "url" JNull;
  if negb (truthy video_id) || negb (truthy url) then Ret items
  else
    title ← get item "title" (JStr "Untitled");
    duration ← get item "duration" JNull;
    position ← get item "position" (JInt (Z.of_nat (length items)));
    video_id ← as_str video_id;
    title ← as_str title;
    url ← as_str url;
    duration ← as_optional_int duration;
    position ← as_int position;
    Ret (items ++ [mkVideoMetadata video_id title url upload_date duration position]).

Fixpoint deserialize_loop (items : list VideoMetadata) (rest : list json)
  : py (list VideoMetadata) :=
  match rest with
  | [] => Ret items
  | item :: rest' =>
      items' ← deserialize_item items item;
      deserialize_loop items' rest'
  end.

Definition deserialize_videos (data : json) : py (list VideoMetadata) :=
  videos ← get data "videos" (JArr []);
  entries ← iter videos;
  deserialize_loop [] entries.

Definition load_cached_metadata (w : world) (s : Fs.fs) (channel_url : string)
  : py (option (list VideoMetadata)) :=
  let path := _metadata_path w channel_url in
  if negb (Fs.exists_ s path) then Ret None
  else
    match (text ← Fs.read_text s path; Fs.json_loads text) with
    | Raise JSONDecodeError | Raise OSError => Ret None
    | Raise e => Raise e
    | Ret data =>
        version ← get data "version" JNull;
        if negb (eq_int version CACHE_VERSION) then Ret None
        else
          videos ← deserialize_videos data;
          Ret (Some videos)
    end.

(** The file operations of [persist_metadata], in order. *)
Definition persist_ops (w : world) (channel_url : string)
  (videos : list VideoMetadata) : list Fs.op :=
  let cache_dir := channel_cache_dir w channel_url in
  let path := cache_dir ++ ["metadata.json"] in
  let payload := serialize_videos w videos in
  Fs.Mkdir cache_dir :: Fs.write_text path (Fs.Dumps payload).

(** [persist_metadata]: the new file system, and [OSError] when the world
    refuses the write (nothing is changed then). *)
Definition persist_metadata (w : world) (s : Fs.fs) (channel_url : string)
  (videos : list VideoMetadata) : py unit * Fs.fs :=
  if write_fails w then (Raise OSError, s)
  else (Ret tt, Fs.run (persist_ops w channel_url videos) s).

(** The records the cache is asked to keep: the identifier and the address
    are not empty, and a date is one that [datetime] can hold. *)
Definition storable (video : VideoMetadata) : Prop :=
  video_id video <> "" /\ url video <> ""
  /\ match upload_date video with
     | Some d => Datetime.valid d = true
     | None => True
     end.

End Cache.

(** ** Strings: the two operations of [str] the program uses *)

Module Str.

Definition lower_char (c : ascii) : ascii :=
  let n := N_of_ascii c in
  if (65 <=? n)%N && (n <=? 90)%N then ascii_of_N (n + 32) else c.

(** [s.lower()], on the ASCII letters. *)
Fixpoint lower (s : string) : string :=
  match s with
  | EmptyString => EmptyString
  | String c s' => String (lower_char c) (lower s')
  end.

(** [needle in hay] *)
Fixpoint contains (needle hay : string) : bool :=
  String.prefix needle hay ||
  match hay with
  | EmptyString => false
  | String _ hay' => contains needle hay'
  end.

(** Truth value of a string: it is not empty. *)
Definition nonempty (s : string) : bool := negb (String.eqb s "").

(** [a or b] on optional strings: the first that is present and not empty. *)
Definition or_str (a b : option string) : option string :=
  match a with
  | Some s => if nonempty s then Some s else b
  | None => b
  end.

Definition truthy_str (a : option string) : bool :=
  match a with Some s => nonempty s | None => false end.

(** [s.endswith(suffix)] *)
Fixpoint ends_with (s suffix : string) : bool :=
  String.eqb s suffix ||
  match s with
  | EmptyString => false
  | String _ s' => ends_with s' suffix
  end.

End Str.

(** ** frames.py: the download of one video *)

Module Download.

Definition failed_to_download (title : string) : string :=
  ("Failed to download video: " ++ title)%string.

(** The reason [extract_first_frame] gives for a [DownloadError] that is
    not a cookie failure. *)
Definition reason_of (title lowered : string) : string :=
  if Str.contains "confirm your age" lowered
  then "Age restricted (requires authentication)"
  else if Str.contains "rate-limited" lowered || Str.contains "try again later" lowered
  then "Rate limited by YouTube"
  else failed_to_download title.

(** Lines 140-163: the [for attempt in range(1, attempts + 1)] loop and the
    check that follows it.  [fetch cookies n] is what the call number [n] of
    [ydl.extract_info(metadata.url, download=True)] does, with or without
    the browser cookies. *)
Fixpoint attempts (fetch : bool -> nat -> Ydl.outcome) (title : string)
  (remaining attempt : nat) (cookies : bool) : py Ydl.entry :=
  match remaining with
  | O => Raise (FrameExtractionError (failed_to_download title))
  | S remaining' =>
      match fetch cookies (attempt - 1) with
      | Info (Some info) => Ret info
      | Info None => Raise (FrameExtractionError (failed_to_download title))
      | DownloadError message =>
          let lowered := Str.lower message in
          if cookies && (Str.contains "cookies" lowered || Str.contains "browser" lowered)
          then attempts fetch title remaining' (S attempt) false
          else Raise (FrameExtractionError (reason_of title lowered))
      end
  end.


End Download.

(** ** The ordering both sorts use *)

Module Order.

(** A sort key: the pair [(date, position)] that both [key=] functions
    build.  Python compares tuples lexicographically. *)
Definition key : Type := datetime * Z.

Definition key_lt (a b : key) : bool :=
  match Datetime.compare (fst a) (fst b) with
  | Lt => true
  | Gt => false
  | Eq => (snd a <? snd b)%Z
  end.

Section Sort.

Context {A : Type} (k : A -> key).

(** [list.sort(key=k)] is stable: an item goes before the first item of the
    sorted rest that is not smaller than it. *)
Fixpoint insert (x : A) (l : list A) : list A :=
  match l with
  | [] => [x]
  | y :: l' => if key_lt (k y) (k x) then y :: insert x l' else x :: l
  end.

Fixpoint sort (l : list A) : list A :=
  match l with
  | [] => []
  | x :: l' => insert x (sort l')
  end.

(** [x] may stand before [y]: [y] is not smaller than [x]. *)
Definition precedes (x y : A) : Prop := key_lt (k y) (k x) = false.

End Sort.

(** [d or datetime.max] *)
Definition or_max (d : option datetime) : datetime :=
  match d with Some d => d | None => Datetime.max end.

End Order.

(** ** youtube.py *)

Module Youtube.

Definition SHORT_URL_SEGMENT : string := "/shorts/".
Definition MIN_DURATION_SECONDS : Z := 60.

(** The value [_parse_upload_date] is given: a string or a number. *)
Inductive raw_date : Type :=
| RawStr (s : string)
| RawNum (t : Q).

Definition _parse_upload_date (w : world) (raw : option raw_date) : option datetime :=
  match raw with
  | None => None
  | Some (RawNum t) => utcfromtimestamp w t
  | Some (RawStr s) => strptime_Ymd w s
  end.

(** [entry.get("upload_date") or entry.get("timestamp") or
    entry.get("release_timestamp")] *)
Definition raw_upload_date (entry : Ydl.entry) : option raw_date :=
  if Str.truthy_str (e_upload_date entry) then option_map RawStr (e_upload_date entry)
  else
    match e_timestamp entry with
    | Some t => if negb (Qeq_bool t 0) then Some (RawNum t)
                else option_map RawNum (e_release_timestamp entry)
    | None => option_map RawNum (e_release_timestamp entry)
    end.

(** [int(x)] on a number: truncation towards zero. *)
Definition int_of (x : Q) : Z := Z.quot (Qnum x) (Zpos (Qden x)).

Definition _entry_to_metadata (w : world) (entry : Ydl.entry) (position : Z)
  : option VideoMetadata :=
  match Str.or_str (e_webpage_url entry) (e_url entry) with
  | None => None
  | Some url =>
      if negb (Str.nonempty url) then None
      else if Str.contains SHORT_URL_SEGMENT (Str.lower url) then None
      else
        let duration := option_map int_of (e_duration entry) in
        if match duration with
           | Some d => (d <? MIN_DURATION_SECONDS)%Z
           | None => false
           end then None
        else
          let upload_date := _parse_upload_date w (raw_upload_date entry) in
          match Str.or_str (e_id entry) (e_display_id entry) with
          | None => None
          | Some video_id =>
              if negb (Str.nonempty video_id) then None
              else
                let title :=
                  match Str.or_str (e_title entry) (Some "Untitled") with
                  | Some t => t
                  | None => "Untitled"
                  end in
                Some (mkVideoMetadata video_id title url upload_date duration position)
          end
  end.

(** [for item in reversed(entries): if item: stack.append(item)], the top of
    the stack being the head of the list. *)
Definition push_reversed (entries : list (option Ydl.entry)) (stack : list Ydl.entry)
  : list Ydl.entry :=
  fold_left (fun st item => match item with Some e => e :: st | None => st end)
            (rev entries) stack.

(** The [while stack:] loop of [_iter_entries], run for at most [fuel]
    turns; [None] when the fuel runs out first. *)
Fixpoint _iter_entries_loop (fuel : nat) (stack : list Ydl.entry)
  : option (list Ydl.entry) :=
  match fuel with
  | O => None
  | S fuel' =>
      match stack with
      | [] => Some []
      | current :: stack' =>
          match e_entries current with
          | Some (item :: items) =>
              _iter_entries_loop fuel' (push_reversed (item :: items) stack')
          | _ => option_map (cons current) (_iter_entries_loop fuel' stack')
          end
      end
  end.

(** The number of dictionaries in a payload. *)
Fixpoint size (e : Ydl.entry) : nat :=
  match e with
  | mkEntry _ _ _ _ _ _ _ _ _ _ entries =>
      S (match entries with
         | Some items =>
             (fix sizes (l : list (option Ydl.entry)) : nat :=
                match l with
                | [] => 0
                | Some x :: l' => size x + sizes l'
                | None :: l' => sizes l'
                end) items
         | None => 0
         end)
  end.

(** [_iter_entries(payload)], as the list of what the generator yields.
    The loop pops one dictionary per turn, so [size payload] turns and one
    more to see the empty stack are enough. *)
Definition _iter_entries (payload : Ydl.entry) : list Ydl.entry :=
  match _iter_entries_loop (S (size payload)) [payload] with
  | Some l => l
  | None => []
  end.

Definition is_live (entry : Ydl.entry) : bool :=
  match e_live_status entry with
  | Some status => String.eqb status "is_live" || String.eqb status "is_upcoming"
  | None => false
  end.

(** The body of [for position, entry in enumerate(_iter_entries(info))],
    from index [position] on. *)
Fixpoint collect (w : world) (position : nat) (entries : list Ydl.entry)
  : list VideoMetadata :=
  match entries with
  | [] => []
  | entry :: rest =>
      if is_live entry then collect w (S position) rest
      else
        match _entry_to_metadata w entry (Z.of_nat position) with
        | Some metadata => metadata :: collect w (S position) rest
        | None => collect w (S position) rest
        end
  end.

(** [key=lambda item: (item.upload_date or datetime.max, item.position)] *)
Definition sort_key (item : VideoMetadata) : Order.key :=
  (Order.or_max (upload_date item), position item).

(** Truth value of [cached]: a list that is present and not empty. *)
Definition usable (cached : option (list VideoMetadata)) : option (list VideoMetadata) :=
  match cached with
  | Some (v :: vs) => Some (v :: vs)
  | _ => None
  end.

(** How the [for attempt in range(1, max_retries + 1)] loop ends. *)
Inductive loop_end : Type :=
| Return (videos : list VideoMetadata)
| Throw (e : exn)
| Break (backlog : list VideoMetadata)
| Exhausted.

Definition cookie_failure (message : string) : bool :=
  Str.contains "cookies" (Str.lower message)
  || Str.contains "browser" (Str.lower message).

(** The loop from [attempt] on, [remaining] attempts being left, with
    [cookies] telling whether ["cookiesfrombrowser"] is still an option. *)
Fixpoint attempts (w : world) (channel_url : string)
  (cached : option (list VideoMetadata)) (max_retries : nat)
  (remaining attempt : nat) (cookies : bool) : loop_end :=
  match remaining with
  | O => Exhausted
  | S remaining' =>
      match extract_info w channel_url cookies (attempt - 1) with
      | DownloadError message =>
          if cookies && cookie_failure message then
            attempts w channel_url cached max_retries remaining' (S attempt) false
          else if (attempt =? max_retries)%nat then
            match usable cached with
            | Some videos => Return videos
            | None => Throw (ChannelFetchError message)
            end
          else
            attempts w channel_url cached max_retries remaining' (S attempt) cookies
      | Info None =>
          match usable cached with
          | Some videos => Return videos
          | None => Throw (ChannelFetchError "Failed to fetch channel information.")
          end
      | Info (Some info) => Break (collect w 0 (_iter_entries info))
      end
  end.

(** What follows the loop: sort, persist (a failure is ignored), return. *)
Definition finish (w : world) (s : Fs.fs) (channel_url : string)
  (cached : option (list VideoMetadata)) (backlog : list VideoMetadata)
  : py (list VideoMetadata) * Fs.fs :=
  match Order.sort sort_key backlog with
  | v :: vs =>
      (Ret (v :: vs), snd (Cache.persist_metadata w s channel_url (v :: vs)))
  | [] =>
      match usable cached with
      | Some videos => (Ret videos, s)
      | None => (Raise (ChannelFetchError "No eligible videos found on the channel."), s)
      end
  end.

Definition fetch_channel_videos (w : world) (s : Fs.fs) (channel_url : string)
  (max_retries : nat) (prefer_cache force_refresh : bool) (browser : option string)
  : py (list VideoMetadata) * Fs.fs :=
  match (if prefer_cache then Cache.load_cached_metadata w s channel_url
         else Ret None) with
  | Raise e => (Raise e, s)
  | Ret cached =>
      match usable cached, force_refresh with
      | Some videos, false => (Ret videos, s)
      | _, _ =>
          match attempts w channel_url cached max_retries max_retries 1
                         (Str.truthy_str browser) with
          | Return videos => (Ret videos, s)
          | Throw e => (Raise e, s)
          | Break backlog => finish w s channel_url cached backlog
          | Exhausted => finish w s channel_url cached []
          end
      end
  end.

(** The dictionaries in a list of entries and on a stack: what the loop of
    [_iter_entries] has left to pop. *)
Fixpoint sizes (l : list (option Ydl.entry)) : nat :=
  match l with
  | [] => 0
  | Some x :: l' => size x + sizes l'
  | None :: l' => sizes l'
  end.

Fixpoint stack_size (stack : list Ydl.entry) : nat :=
  match stack with
  | [] => 0
  | e :: stack' => size e + stack_size stack'
  end.

(** The positions of a list of records are the indices [0, 1, ...] of a
    list of that length, in some order. *)
Definition gapless (videos : list VideoMetadata) : Prop :=
  Permutation (map position videos) (map Z.of_nat (seq 0 (length videos))).

(** The dictionaries without entries of their own below a payload, from
    left to right: what a depth-first walk that skips the falsy items
    meets. *)
Fixpoint flatten (e : Ydl.entry) : list Ydl.entry :=
  match e with
  | mkEntry _ _ _ _ _ _ _ _ _ _ entries =>
      match entries with
      | Some (item :: items) =>
          (fix leaves (l : list (option Ydl.entry)) : list Ydl.entry :=
             match l with
             | [] => []
             | Some x :: l' => flatten x ++ leaves l'
             | None :: l' => leaves l'
             end) (item :: items)
      | _ => [e]
      end
  end.

Fixpoint leaves_of (l : list (option Ydl.entry)) : list Ydl.entry :=
  match l with
  | [] => []
  | Some x :: l' => flatten x ++ leaves_of l'
  | None :: l' => leaves_of l'
  end.

(** The two date constructors of the world build dates that [datetime] can
    hold, as Python's do. *)
Definition sound_dates (w : world) : Prop :=
  (forall s d, strptime_Ymd w s = Some d -> Datetime.valid d = true)
  /\ (forall t d, utcfromtimestamp w t = Some d -> Datetime.valid d = true).

(** What [_entry_to_metadata] lets through: an identifier, an address and a
    title that are not empty, an address without the shorts segment, and a
    duration of a minute or more when it is known. *)
Definition eligible (video : VideoMetadata) : Prop :=
  Str.nonempty (video_id video) = true
  /\ Str.nonempty (url video) = true
  /\ Str.nonempty (title video) = true
  /\ Str.contains SHORT_URL_SEGMENT (Str.lower (url video)) = false
  /\ match duration video with
     | Some d => (MIN_DURATION_SECONDS <= d)%Z
     | None => True
     end.

End Youtube.

(** ** video.py *)

Module Video.

Local Open Scope Q_scope.

(** [round(x)]: to the nearest integer, a tie going to the even one. *)
Definition round_half_even (x : Q) : Z :=
  let f := Qfloor x in
  match Qcompare (x - inject_Z f) (1 # 2) with
  | Lt => f
  | Gt => (f + 1)%Z
  | Eq => if Z.even f then f else (f + 1)%Z
  end.

(** [round(x, ndigits)]: to the nearest multiple of [10 ** -ndigits]. *)
Definition round_digits (x : Q) (ndigits : nat) : Q :=
  let scale := inject_Z (10 ^ Z.of_nat ndigits) in
  inject_Z (round_half_even (x * scale)) / scale.

(** [fps = max(1.0, round(1.0 / frame_duration_seconds, 4))] *)
Definition frame_rate (frame_duration_seconds : Q) : Q :=
  Qmax 1 (round_digits (1 / frame_duration_seconds) 4).

(** What the program asks of OpenCV's writer. *)
Inductive cv_event : Type :=
| Opened (fps : Q)
| Wrote (frame : Path)
| Released.

(** The [for item in ordered_frames] loop: [_load_frame] raises when
    [cv2.imread] gives nothing, and the loop stops there. *)
Fixpoint write_frames (w : world) (frames : list FrameResult.t)
  : py unit * list cv_event :=
  match frames with
  | [] => (Ret tt, [])
  | item :: rest =>
      if imread w (FrameResult.frame_path item) then
        let '(r, events) := write_frames w rest in
        (r, Wrote (FrameResult.frame_path item) :: events)
      else (Raise (VideoCompilationError "Unable to load frame image"), [])
  end.

Definition compile_video (w : world) (frames : list FrameResult.t)
  (frame_duration_seconds : Q) : py unit * list cv_event :=
  match frames with
  | [] => (Raise (VideoCompilationError "No frames available for compilation."), [])
  | _ :: _ =>
      if Qle_bool frame_duration_seconds 0 then
        (Raise (VideoCompilationError "Frame duration must be greater than zero."), [])
      else
        let fps := frame_rate frame_duration_seconds in
        if negb (writer_opens w) then
          (Raise (VideoCompilationError "Failed to open video writer"), [Released])
        else
          let '(r, events) := write_frames w frames in
          (r, Opened fps :: events ++ [Released])
  end.

Definition TARGET_WIDTH : Z := 1920.
Definition TARGET_HEIGHT : Z := 1080.

(** [int(x)] on a number: truncation towards zero. *)
Definition int_of (x : Q) : Z := Z.quot (Qnum x) (Zpos (Qden x)).

(** The numbers [_letterbox_frame] computes for a frame of [width] by
    [height] pixels: the size it is resized to, and where it is put on the
    canvas. *)
Record placement : Type := mkPlacement {
  new_width : Z; new_height : Z; x_offset : Z; y_offset : Z
}.

Definition _letterbox_frame (width height : Z) : placement :=
  let scale := Qmin (inject_Z TARGET_WIDTH / inject_Z width)
                    (inject_Z TARGET_HEIGHT / inject_Z height) in
  let new_width := Z.max 1 (int_of (inject_Z width * scale)) in
  let new_height := Z.max 1 (int_of (inject_Z height * scale)) in
  let x_offset := ((TARGET_WIDTH - new_width) / 2)%Z in
  let y_offset := ((TARGET_HEIGHT - new_height) / 2)%Z in
  mkPlacement new_width new_height x_offset y_offset.

End Video.

(** ** cli.py *)

Module Cli.

Module Args.

(** The namespace [parse_args] returns. *)
Record t : Type := mk {
  channel_url : string;
  position : Q;
  frame_duration : Q;
  max_format_height : Z;
  max_workers : option Z;
  limit : option Z;
  browser : option string;
  resume : bool;
  keep_temp : bool
}.

End Args.

(** What a run does that the properties below speak of. *)
Inductive event : Type :=
| Rmtree (p : Path)                          (** [shutil.rmtree(p)] *)
| Pool (worker_count : Z)                    (** the executor is created *)
| Submit (video : VideoMetadata)             (** one extraction task *)
| Compile (frames : list FrameResult.t)      (** [compile_video(frames, ...)] *)
| Cv (e : Video.cv_event).

(** The outcome of a run: the return value of [main] (or the exception it
    lets through), what it did, and the file system it leaves. *)
Record run : Type := mkRun {
  exit : py Z;
  events : list event;
  final : Fs.fs
}.

Definition categorize_failure (reason : string) : string :=
  let lowered := Str.lower reason in
  if Str.contains "age" lowered then "Age-restricted"
  else if Str.contains "unavailable" lowered || Str.contains "private" lowered
  then "Unavailable"
  else if Str.contains "blocked" lowered then "Blocked"
  else "Other".

(** The checks of the arguments: the exit code when one fails. *)
Definition validate (w : world) (args : Args.t) : option Z :=
  match missing_dependencies w with
  | Some _ => Some 1%Z
  | None =>
      if negb (Qle_bool 0 (Args.position args) && Qle_bool (Args.position args) 100)
      then Some 1%Z
      else if match Args.limit args with Some n => (n <=? 0)%Z | None => false end
      then Some 1%Z
      else if match Args.max_workers args with Some n => (n <=? 0)%Z | None => false end
      then Some 1%Z
      else None
  end.

(** [max_workers] as [main] settles it, and whether it was capped. *)
Definition settle_workers (w : world) (args : Args.t) : Z * bool :=
  let cpu_default_workers := if (cpu_count w =? 0)%Z then 1%Z else cpu_count w in
  let max_workers :=
    match Args.max_workers args with
    | Some n => if (n =? 0)%Z then cpu_default_workers else n
    | None => cpu_default_workers
    end in
  match Args.browser args, Args.max_workers args with
  | None, None => (Z.min max_workers 2, true)
  | _, _ => (max_workers, false)
  end.

Definition frame_dir_of (w : world) (args : Args.t) : Path :=
  Cache.channel_cache_dir w (Args.channel_url args) ++ ["frames"].

(** Lines 271-278: the frame directory is removed unless the run resumes
    (a failure of the removal is ignored), then created. *)
Definition prepare_frame_dir (w : world) (args : Args.t) (s : Fs.fs)
  : Fs.fs * list event :=
  let frame_dir := frame_dir_of w args in
  if negb (Args.resume args) && Fs.exists_ s frame_dir then
    (Fs.mkdir (if rmtree_fails w then s else Fs.rmtree s frame_dir) frame_dir,
     [Rmtree frame_dir])
  else (Fs.mkdir s frame_dir, []).

(** Lines 286-294: the scan for frames an earlier run left. *)
Fixpoint resume_scan (s : Fs.fs) (frame_dir : Path) (videos : list VideoMetadata)
  (processed_map : gmap string FrameResult.t) : py (gmap string FrameResult.t) :=
  match videos with
  | [] => Ret processed_map
  | video :: rest =>
      let cached_frame := frame_dir ++ [(video_id video ++ ".png")%string] in
      if Fs.exists_ s cached_frame then
        result ← FrameResult.init
                   (FrameResult.mkKwargs (Some video) (Some cached_frame) None);
        resume_scan s frame_dir rest (<[video_id video := result]> processed_map)
      else resume_scan s frame_dir rest processed_map
  end.

(** What the loop over the completed futures keeps. *)
Record progress : Type := mkProgress {
  processed_map : gmap string FrameResult.t;
  skipped_details : list (string * string * string);
  disk : Fs.fs
}.

Definition skip (p : progress) (video : VideoMetadata) (reason : string) : progress :=
  mkProgress (processed_map p)
    (skipped_details p ++ [(title video, reason, categorize_failure reason)])
    (disk p).

(** One completed future: its result enters [processed_map], or its
    exception is recorded.  A successful task has written its frame. *)
Definition complete (w : world) (frame_dir : Path) (p : progress)
  (video : VideoMetadata) : progress :=
  match extraction w video with
  | Extracted info_upload_date =>
      match Frames.frame_result video frame_dir info_upload_date with
      | Ret result =>
          mkProgress (<[video_id video := result]> (processed_map p))
            (skipped_details p)
            (Fs.mkFs (<[FrameResult.frame_path result := Fs.Bytes]> (Fs.files (disk p)))
                     (Fs.dirs (disk p)))
      | Raise _ => skip p video "Unexpected error: "
      end
  | Failed reason => skip p video reason
  | Crashed reason => skip p video ("Unexpected error: " ++ reason)%string
  end.

Definition pending_of (processed_map : gmap string FrameResult.t)
  (videos : list VideoMetadata) : list VideoMetadata :=
  List.filter (fun video => negb (bool_decide (is_Some (processed_map !! video_id video))))
              videos.

(** Lines 330-380: the pool, its tasks and their results. *)
Definition run_pool (w : world) (args : Args.t) (frame_dir : Path)
  (p : progress) (pending_videos : list VideoMetadata) : progress * list event :=
  match pending_videos with
  | [] => (p, [])
  | _ :: _ =>
      let total_pending := Z.of_nat (length pending_videos) in
      let worker_count := Z.max 1 (Z.min (fst (settle_workers w args)) total_pending) in
      (fold_left (complete w frame_dir) (as_completed w pending_videos) p,
       Pool worker_count :: map Submit pending_videos)
  end.

(** [key=lambda item: (item.upload_date or item.metadata.upload_date or
    datetime.max, item.metadata.position)] *)
Definition sort_key (item : FrameResult.t) : Order.key :=
  (Order.or_max
     (match FrameResult.upload_date item with
      | Some d => Some d
      | None => upload_date (FrameResult.metadata item)
      end),
   position (FrameResult.metadata item)).


(** Lines 382-388: the results in the order of [videos], then sorted. *)
Definition assemble (processed_map : gmap string FrameResult.t)
  (videos : list VideoMetadata) : list FrameResult.t :=
  Order.sort sort_key (omap (fun video => processed_map !! video_id video) videos).

(** Lines 268-413, after the list of videos is known to be non-empty. *)
Definition process (w : world) (args : Args.t) (s : Fs.fs)
  (videos : list VideoMetadata) : run :=
  let frame_dir := frame_dir_of w args in
  let '(s1, removal) := prepare_frame_dir w args s in
  match (if Args.resume args then resume_scan s1 frame_dir videos ∅ else Ret ∅) with
  | Raise e => mkRun (Raise e) removal s1
  | Ret reused =>
      let pending_videos := pending_of reused videos in
      let '(p, tasks) :=
        run_pool w args frame_dir (mkProgress reused [] s1) pending_videos in
      let processed := assemble (processed_map p) videos in
      match processed with
      | [] => mkRun (Ret 2%Z) (removal ++ tasks) (disk p)
      | _ :: _ =>
          let '(r, cv) := Video.compile_video w processed (Args.frame_duration args) in
          let events := removal ++ tasks ++ Compile processed :: map Cv cv in
          match r with
          | Ret _ => mkRun (Ret 0%Z) events (disk p)
          | Raise (VideoCompilationError _) => mkRun (Ret 1%Z) events (disk p)
          | Raise e => mkRun (Raise e) events (disk p)
          end
      end
  end.

(** What a completed task adds to [processed_map]: its result, when it has
    one. *)
Definition result_of (w : world) (frame_dir : Path) (video : VideoMetadata)
  : option FrameResult.t :=
  match extraction w video with
  | Extracted info_upload_date =>
      match Frames.frame_result video frame_dir info_upload_date with
      | Ret result => Some result
      | Raise _ => None
      end
  | _ => None
  end.

(** One completed task, as far as [processed_map] goes. *)
Definition record_result (w : world) (frame_dir : Path)
  (m : gmap string FrameResult.t) (video : VideoMetadata) : gmap string FrameResult.t :=
  match result_of w frame_dir video with
  | Some result => <[video_id video := result]> m
  | None => m
  end.

(** The videos a run submitted tasks for, in order. *)
Definition submitted (events : list event) : list VideoMetadata :=
  omap (fun e => match e with Submit video => Some video | _ => None end) events.

(** The file name [_normalize_output_path] settles on, from [path.name]:
    the default when the name is empty or a dot, and [.mp4] added unless
    the name ends with it already, in any case of letters. *)
Definition output_filename (name : string) : string :=
  let filename :=
    if Str.nonempty name && negb (String.eqb name ".") then name
    else "channel_compilation.mp4" in
  if Str.ends_with (Str.lower filename) ".mp4" then filename
  else (filename ++ ".mp4")%string.

(** [videos[: args.limit]] when a limit is given. *)
Definition limited (args : Args.t) (videos : list VideoMetadata) : list VideoMetadata :=
  match Args.limit args with
  | Some n => take (Z.to_nat n) videos
  | None => videos
  end.


(** [main(argv)], from the parsed arguments on. *)
Definition main (w : world) (args : Args.t) (s : Fs.fs) : run :=
  match validate w args with
  | Some code => mkRun (Ret code) [] s
  | None =>
      match Youtube.fetch_channel_videos w s (Args.channel_url args) 3 true false
              (Args.browser args) with
      | (Raise (ChannelFetchError _), s1) => mkRun (Ret 1%Z) [] s1
      | (Raise e, s1) => mkRun (Raise e) [] s1
      | (Ret videos, s1) =>
          match limited args videos with
          | [] => mkRun (Ret 2%Z) [] s1
          | video :: videos' => process w args s1 (video :: videos')
          end
      end
  end.

End Cli.

(** ** Concrete values for the examples below *)

Module Examples.

Definition T1 : datetime := mkDatetime 2020 1 1 0 0 0 0.
Definition T3 : datetime := mkDatetime 2022 6 15 12 30 0 0.

Definition video_a : VideoMetadata :=
  mkVideoMetadata "a" "First" "https://example.com/watch?v=a" (Some T1) (Some 120%Z) 0.

Definition video_b : VideoMetadata :=
  mkVideoMetadata "b" "Second" "https://example.com/watch?v=b" None None 1.

Definition video_c : VideoMetadata :=
  mkVideoMetadata "c" "Third" "https://example.com/watch?v=c" (Some T3) (Some 300%Z) 2.

(** A world in which nothing is found upstream and every task fails. *)
Definition quiet : world :=
  mkWorld ["cache"] (fun s => s) T1 (fun _ => None) (fun _ => None) None 4
    (fun _ _ _ => Info None) false false (fun _ => Failed "Video unavailable")
    (fun l => l) true (fun _ => true).

Definition channel : string := "https://example.com/@channel".

Definition leaf (url id : string) (seconds : Q) (live_status : option string)
  : Ydl.entry :=
  mkEntry (Some url) None (Some seconds) None None None (Some id) None
          (Some id) live_status None.

Definition playlist (entries : list (option Ydl.entry)) : Ydl.entry :=
  mkEntry None None None None None None (Some "playlist") None None None
          (Some entries).

(** A channel with a short, a video, and a tab that holds a live broadcast
    and another video. *)
Definition payload : Ydl.entry :=
  playlist
    [Some (leaf "https://example.com/shorts/s" "s" 30 None);
     None;
     Some (leaf "https://example.com/watch?v=b" "b" 120 None);
     Some (playlist
             [Some (leaf "https://example.com/watch?v=l" "l" 600 (Some "is_live"));
              Some (leaf "https://example.com/watch?v=c" "c" 300 None)])].

(** A world in which the channel is [payload] and every task succeeds. *)
Definition busy : world :=
  mkWorld ["cache"] (fun s => s) T1 (fun _ => None) (fun _ => None) None 4
    (fun _ _ _ => Info (Some payload)) false false (fun _ => Extracted None)
    (fun l => l) true (fun _ => true).




Definition metadata_json : Path := Cache._metadata_path quiet channel.

(** A cache directory that holds a snapshot of [video_a]. *)
Definition with_snapshot : Fs.fs :=
  snd (Cache.persist_metadata quiet Fs.empty channel [video_a]).

(** A cache directory whose [metadata.json] holds the JSON text [[]]. *)
Definition with_array : Fs.fs :=
  Fs.mkFs {[ metadata_json := Fs.Text (Fs.Dumps (JArr [])) ]} ∅.

Definition args : Cli.Args.t :=
  Cli.Args.mk channel 0 (1 # 5) 720 None None (Some "chrome") false false.

(** The same arguments with [--resume]. *)
Definition args_resume : Cli.Args.t :=
  Cli.Args.mk channel 0 (1 # 5) 720 None None (Some "chrome") true false.

(** What a first run without [--resume] leaves in the world [busy]. *)
Definition after_first_run : Fs.fs :=
  Cli.final (Cli.main busy args Fs.empty).

(** A world in which every request to the channel fails. *)
Definition offline : world :=
  mkWorld ["cache"] (fun s => s) T1 (fun _ => None) (fun _ => None) None 4
    (fun _ _ _ => DownloadError "HTTP Error 503: Service Unavailable")
    false false (fun _ => Failed "Video unavailable") (fun l => l) true (fun _ => true).

(** A cache directory whose snapshot has another version. *)
Definition with_stale : Fs.fs :=
  Fs.mkFs {[ metadata_json :=
               Fs.Text (Fs.Dumps (JObj [("version", JInt 2); ("videos", JArr [])])) ]} ∅.

(** A cache directory whose [metadata.json] is no text. *)
Definition with_image : Fs.fs :=
  Fs.mkFs {[ metadata_json := Fs.Bytes ]} ∅.

(** A world like [busy] in which the tasks complete in the reverse of the
    order they were submitted in, and the task of [video_b] fails. *)
Definition reversed : world :=
  mkWorld ["cache"] (fun s => s) T1 (fun _ => None) (fun _ => None) None 4
    (fun _ _ _ => Info (Some payload)) false false
    (fun video => if String.eqb (video_id video) "b"
                  then Failed "Video unavailable" else Extracted (Some T3))
    (fun l => rev l) true (fun _ => true).

(** A world like [busy] in which the image of [video_b] cannot be read and
    the snapshot cannot be written. *)
Definition damaged : world :=
  mkWorld ["cache"] (fun s => s) T1 (fun _ => None) (fun _ => None) None 4
    (fun _ _ _ => Info (Some payload)) false true (fun _ => Extracted None)
    (fun l => l) true
    (fun path => negb (bool_decide (path = ["b.png"]))).

End Examples.

(** * Properties *)

(** ** The capture timestamp *)

Module FramesFacts.

Import Frames.
Local Open Scope Q_scope.

Lemma Qle_bool_false (x y : Q) : Qle_bool x y = false <-> y < x.
Proof.
  split; intros H.
  - apply Qnot_le_lt. intros Hle. apply Qle_bool_iff in Hle. congruence.
  - destruct (Qle_bool x y) eqn:E; [|reflexivity].
    apply Qle_bool_iff in E. exfalso. apply (Qlt_not_le _ _ H E).
Qed.



Lemma bounded_id (p : Q) : 0 <= p -> p <= 100 -> Qmax 0 (Qmin p 100) == p.
Proof.
  intros H0 H100.
  rewrite (Q.min_l p 100) by assumption.
  apply Q.max_r. assumption.
Qed.

Lemma isclose_compat (x y : Q) : x == y -> isclose x 100 = isclose y 100.
Proof.
  intros H. unfold isclose.
  assert (E1 : Qeq_bool x 100 = Qeq_bool y 100).
  { destruct (Qeq_bool x 100) eqn:Ex, (Qeq_bool y 100) eqn:Ey; try reflexivity.
    - apply Qeq_bool_iff in Ex. apply Qeq_bool_neq in Ey. exfalso. apply Ey. lra.
    - apply Qeq_bool_iff in Ey. apply Qeq_bool_neq in Ex. exfalso. apply Ex. lra. }
  assert (E2 : forall t, Qle_bool (Qabs (100 - x)) t = Qle_bool (Qabs (100 - y)) t).
  { intros t. assert (Hab : Qabs (100 - x) == Qabs (100 - y)) by (rewrite H; reflexivity).
    destruct (Qle_bool (Qabs (100 - x)) t) eqn:Ex, (Qle_bool (Qabs (100 - y)) t) eqn:Ey;
      try reflexivity.
    - apply Qle_bool_iff in Ex. apply Qle_bool_false in Ey. lra.
    - apply Qle_bool_iff in Ey. apply Qle_bool_false in Ex. lra. }
  assert (E3 : Qle_bool (Qabs (100 - y)) (Qabs (rel_tol * x))
               = Qle_bool (Qabs (100 - y)) (Qabs (rel_tol * y))).
  { assert (Hab : Qabs (rel_tol * x) == Qabs (rel_tol * y)) by (rewrite H; reflexivity).
    destruct (Qle_bool _ (Qabs (rel_tol * x))) eqn:Ex,
             (Qle_bool _ (Qabs (rel_tol * y))) eqn:Ey; try reflexivity.
    - apply Qle_bool_iff in Ex. apply Qle_bool_false in Ey. lra.
    - apply Qle_bool_iff in Ey. apply Qle_bool_false in Ex. lra. }
  rewrite E1, !E2, E3. reflexivity.
Qed.

(** The two branches of [_calculate_timestamp] for a positive duration and
    a percentage in range. *)
Lemma timestamp_close (d : Z) (p : Q) :
  (0 < d)%Z -> 0 <= p -> p <= 100 -> isclose p 100 = true ->
  _calculate_timestamp (Some d) p == inject_Z d - (1 # 10).
Proof.
  intros Hd H0 H100 Hc. unfold _calculate_timestamp, no_duration.
  replace (d =? 0)%Z with false by (symmetry; apply Z.eqb_neq; lia).
  replace (d <=? 0)%Z with false by (symmetry; apply Z.leb_gt; lia).
  cbn [orb]. rewrite (isclose_compat _ p (bounded_id p H0 H100)), Hc.
  apply Q.max_l.
  assert (inject_Z 1 <= inject_Z d) by (rewrite <- Zle_Qle; lia).
  change (inject_Z 1) with 1 in *. lra.
Qed.

Lemma timestamp_linear (d : Z) (p : Q) :
  (0 < d)%Z -> 0 <= p -> p <= 100 -> isclose p 100 = false ->
  _calculate_timestamp (Some d) p == inject_Z d * (p / 100).
Proof.
  intros Hd H0 H100 Hc. unfold _calculate_timestamp, no_duration.
  replace (d =? 0)%Z with false by (symmetry; apply Z.eqb_neq; lia).
  replace (d <=? 0)%Z with false by (symmetry; apply Z.leb_gt; lia).
  cbn [orb]. rewrite (isclose_compat _ p (bounded_id p H0 H100)), Hc.
  rewrite (bounded_id p H0 H100). reflexivity.
Qed.




(** A duration that is absent or not positive gives the timestamp 0. *)
Lemma calculate_timestamp_no_duration (duration : option Z) (p : Q) :
  match duration with Some d => (d <= 0)%Z | None => True end ->
  _calculate_timestamp duration p = 0.
Proof.
  destruct duration as [d|]; [|reflexivity].
  intros Hd. unfold _calculate_timestamp, no_duration.
  replace (d <=? 0)%Z with true by (symmetry; apply Z.leb_le; lia).
  rewrite orb_true_r. reflexivity.
Qed.

End FramesFacts.

(** ** The stable sort and its key order *)

Module OrderFacts.

Import Order.

Lemma lex_compare_antisym (a b : list N) :
  Datetime.lex_compare b a = CompOpp (Datetime.lex_compare a b).
Proof.
  revert b. induction a as [|x a IH]; intros [|y b]; cbn; try reflexivity.
  rewrite (N.compare_antisym x y).
  destruct (x ?= y)%N; cbn; [apply IH | reflexivity | reflexivity].
Qed.

Lemma compare_antisym (d1 d2 : datetime) :
  Datetime.compare d2 d1 = CompOpp (Datetime.compare d1 d2).
Proof. apply lex_compare_antisym. Qed.



Lemma key_lt_asym (a b : key) : key_lt a b = true -> key_lt b a = false.
Proof.
  unfold key_lt. rewrite (compare_antisym (fst a) (fst b)).
  destruct (Datetime.compare (fst a) (fst b)); cbn; try discriminate; try reflexivity.
  intros H. apply Z.ltb_lt in H. apply Z.ltb_ge. lia.
Qed.

Section Sort.

Context {A : Type} (k : A -> key).

Lemma insert_perm (x : A) (l : list A) : Permutation (insert k x l) (x :: l).
Proof.
  induction l as [|y l IH]; cbn; [reflexivity|].
  destruct (key_lt (k y) (k x)); [|reflexivity].
  rewrite IH. apply perm_swap.
Qed.

Lemma sort_perm (l : list A) : Permutation (sort k l) l.
Proof.
  induction l as [|x l IH]; cbn; [reflexivity|].
  rewrite insert_perm. constructor. exact IH.
Qed.

Lemma insert_hd (y x : A) (l : list A) :
  precedes k y x -> HdRel (precedes k) y l -> HdRel (precedes k) y (insert k x l).
Proof.
  intros Hyx Hl. destruct l as [|z l]; cbn; [constructor; exact Hyx|].
  destruct (key_lt (k z) (k x)); constructor; [|exact Hyx].
  inversion Hl; assumption.
Qed.

Lemma insert_sorted (x : A) (l : list A) :
  Sorted (precedes k) l -> Sorted (precedes k) (insert k x l).
Proof.
  induction 1 as [|y l Hs IH Hhd]; cbn; [repeat constructor|].
  destruct (key_lt (k y) (k x)) eqn:E.
  - constructor; [exact IH|]. apply insert_hd; [|exact Hhd].
    apply key_lt_asym. exact E.
  - constructor; [constructor; assumption|]. constructor. exact E.
Qed.

Lemma sort_sorted (l : list A) : Sorted (precedes k) (sort k l).
Proof.
  induction l as [|x l IH]; cbn; [constructor|]. apply insert_sorted, IH.
Qed.

End Sort.



Lemma sort_ext {A : Type} (k1 k2 : A -> key) (l : list A) :
  (forall x, k1 x = k2 x) -> sort k1 l = sort k2 l.
Proof.
  intros H. induction l as [|x l IH]; cbn; [reflexivity|].
  rewrite IH. generalize (sort k2 l). intros s.
  induction s as [|y s IHs]; cbn; [reflexivity|].
  rewrite !H, IHs. reflexivity.
Qed.

End OrderFacts.

(** ** The order of assembly *)

Module AssemblyFacts.

Import Order OrderFacts.




End AssemblyFacts.

(** ** Dates written and read back *)

Module DatetimeFacts.

Import Datetime.
Local Open Scope N_scope.

Lemma digit_val_digit (n : N) : n < 10 -> digit_val (digit n) = Some n.
Proof.
  intros H. unfold digit_val, digit.
  rewrite N_ascii_embedding by lia.
  replace (48 <=? 48 + n) with true by (symmetry; apply N.leb_le; lia).
  replace (48 + n <=? 57) with true by (symmetry; apply N.leb_le; lia).
  cbn [andb]. f_equal. lia.
Qed.

Lemma mod10_lt (n : N) : n mod 10 < 10.
Proof. apply N.mod_lt. discriminate. Qed.

Lemma parse_pad2 (n : N) : n < 100 -> parse_digits (pad2 n) = Some n.
Proof.
  intros H. unfold parse_digits, pad2. cbn [parse_digits_from].
  rewrite !digit_val_digit by apply mod10_lt.
  f_equal.
  pose proof (N.div_mod n 10 ltac:(discriminate)).
  assert (n / 10 < 10) by (apply N.Div0.div_lt_upper_bound; lia).
  rewrite (N.mod_small (n / 10) 10) by assumption. lia.
Qed.

Lemma div_step (n k : N) :
  k <> 0 -> n / k = 10 * (n / (k * 10)) + (n / k) mod 10.
Proof.
  intros Hk. rewrite <- N.Div0.div_div. apply N.div_mod. discriminate.
Qed.

Lemma parse_pad4 (n : N) : n < 10000 -> parse_digits (pad4 n) = Some n.
Proof.
  intros H. unfold parse_digits, pad4. cbn [parse_digits_from].
  rewrite !digit_val_digit by apply mod10_lt.
  f_equal.
  assert (H0 : n = 10 * (n / 10) + n mod 10) by (apply N.div_mod; discriminate).
  assert (H1 : n / 10 = 10 * (n / 100) + (n / 10) mod 10)
    by (apply (div_step n 10); discriminate).
  assert (H2 : n / 100 = 10 * (n / 1000) + (n / 100) mod 10)
    by (apply (div_step n 100); discriminate).
  assert (H3 : n / 1000 < 10) by (apply N.Div0.div_lt_upper_bound; lia).
  rewrite (N.mod_small (n / 1000) 10) by assumption.
  lia.
Qed.

Lemma parse_pad6 (n : N) : n < 1000000 -> parse_digits (pad6 n) = Some n.
Proof.
  intros H. unfold parse_digits, pad6. cbn [parse_digits_from].
  rewrite !digit_val_digit by apply mod10_lt.
  f_equal.
  assert (H0 : n = 10 * (n / 10) + n mod 10) by (apply N.div_mod; discriminate).
  assert (H1 : n / 10 = 10 * (n / 100) + (n / 10) mod 10)
    by (apply (div_step n 10); discriminate).
  assert (H2 : n / 100 = 10 * (n / 1000) + (n / 100) mod 10)
    by (apply (div_step n 100); discriminate).
  assert (H3 : n / 1000 = 10 * (n / 10000) + (n / 1000) mod 10)
    by (apply (div_step n 1000); discriminate).
  assert (H4 : n / 10000 = 10 * (n / 100000) + (n / 10000) mod 10)
    by (apply (div_step n 10000); discriminate).
  assert (H5 : n / 100000 < 10) by (apply N.Div0.div_lt_upper_bound; lia).
  rewrite (N.mod_small (n / 100000) 10) by assumption.
  lia.
Qed.

Lemma days_in_month_le (y m : N) : days_in_month y m <= 31.
Proof.
  destruct (N.le_gt_cases m 12) as [Hm | Hm].
  - assert (Hc : m = 0 \/ m = 1 \/ m = 2 \/ m = 3 \/ m = 4 \/ m = 5 \/ m = 6
                 \/ m = 7 \/ m = 8 \/ m = 9 \/ m = 10 \/ m = 11 \/ m = 12) by lia.
    repeat (destruct Hc as [-> | Hc]; [cbn; try destruct (is_leap y); lia|]).
    subst. cbn. lia.
  - unfold days_in_month.
    destruct m as [|p]; [lia|].
    do 4 (destruct p as [p | p |]; try lia); cbn; lia.
Qed.

Lemma valid_bounds (d : datetime) :
  valid d = true ->
  year d < 10000 /\ month d < 100 /\ day d < 100 /\ hour d < 100
  /\ minute d < 100 /\ second d < 100 /\ microsecond d < 1000000.
Proof.
  unfold valid. rewrite !andb_true_iff, !N.leb_le, !N.ltb_lt.
  pose proof (days_in_month_le (year d) (month d)). lia.
Qed.

(** [fromisoformat] reads back what [isoformat] writes. *)
Lemma fromisoformat_isoformat (d : datetime) :
  valid d = true -> fromisoformat (isoformat d) = Ret d.
Proof.
  intros Hv. pose proof (valid_bounds d Hv) as (Hy & Hm & Hd & Hh & Hn & Hs & Hu).
  pose proof (parse_pad4 _ Hy) as Py. pose proof (parse_pad2 _ Hm) as Pm.
  pose proof (parse_pad2 _ Hd) as Pd. pose proof (parse_pad2 _ Hh) as Ph.
  pose proof (parse_pad2 _ Hn) as Pn. pose proof (parse_pad2 _ Hs) as Ps.
  pose proof (parse_pad6 _ Hu) as Pu.
  unfold pad2, pad4, pad6 in *.
  unfold fromisoformat, isoformat, isoformat_chars, pad2, pad4, pad6.
  rewrite list_ascii_of_string_of_list_ascii.
  destruct (microsecond d =? 0) eqn:Eu;
    cbn -[parse_digits digit valid N.div N.modulo];
    rewrite Py, Pm, Pd, Ph, Pn, Ps;
    cbn -[parse_digits digit valid N.div N.modulo].
  - apply N.eqb_eq in Eu. unfold checked.
    destruct d as [y m dd h mi se us]. cbn in Eu. subst us.
    cbn [year month day hour minute second]. rewrite Hv. reflexivity.
  - rewrite Pu. cbn -[valid]. unfold checked.
    destruct d as [y m dd h mi se us].
    cbn [year month day hour minute second microsecond]. rewrite Hv. reflexivity.
Qed.

Lemma isoformat_nonempty (d : datetime) : String.eqb (isoformat d) "" = false.
Proof. reflexivity. Qed.

End DatetimeFacts.

(** ** The metadata cache *)

Module CacheFacts.

Import Cache DatetimeFacts.

Lemma parse_upload_raw_serialized (upload : option datetime) :
  match upload with Some d => Datetime.valid d = true | None => True end ->
  parse_upload_raw (match upload with
                    | Some d => JStr (isoformat d)
                    | None => JNull
                    end) = Ret upload.
Proof.
  destruct upload as [d|]; intros Hv; [|reflexivity].
  unfold parse_upload_raw, truthy. rewrite isoformat_nonempty. cbn [negb].
  rewrite (fromisoformat_isoformat d Hv). reflexivity.
Qed.

Lemma deserialize_item_serialized (items : list VideoMetadata) (video : VideoMetadata) :
  storable video ->
  deserialize_item items (serialize_video video) = Ret (items ++ [video]).
Proof.
  intros (Hid & Hurl & Hdate).
  apply String.eqb_neq in Hid. apply String.eqb_neq in Hurl.
  destruct video as [vid ttl u up dur pos]. cbn in Hid, Hurl, Hdate.
  unfold deserialize_item, serialize_video.
  cbn -[parse_upload_raw isoformat].
  rewrite (parse_upload_raw_serialized up Hdate).
  cbn -[isoformat]. rewrite Hid, Hurl. cbn.
  destruct dur; reflexivity.
Qed.

Lemma deserialize_loop_serialized (items videos : list VideoMetadata) :
  Forall storable videos ->
  deserialize_loop items (map serialize_video videos) = Ret (items ++ videos).
Proof.
  intros H. revert items.
  induction H as [|video videos Hv _ IH]; intros items; cbn [map deserialize_loop].
  - rewrite app_nil_r. reflexivity.
  - rewrite (deserialize_item_serialized items video Hv).
    change (deserialize_loop (items ++ [video]) (map serialize_video videos)
            = Ret (items ++ video :: videos)).
    rewrite IH, <- app_assoc. reflexivity.
Qed.

Lemma deserialize_serialize (w : world) (videos : list VideoMetadata) :
  Forall storable videos ->
  deserialize_videos (serialize_videos w videos) = Ret videos.
Proof.
  intros H. unfold deserialize_videos, serialize_videos. cbn -[isoformat].
  apply (deserialize_loop_serialized [] videos H).
Qed.

Lemma exists_written (s : Fs.fs) (p : Path) (c : Fs.content) :
  Fs.exists_ (Fs.mkFs (<[p := c]> (Fs.files s)) (Fs.dirs s)) p = true.
Proof.
  unfold Fs.exists_. cbn. rewrite lookup_insert_eq.
  rewrite bool_decide_eq_true_2 by eauto. reflexivity.
Qed.

Lemma load_document (w : world) (s : Fs.fs) (channel_url : string) (data : json) :
  Fs.files s !! _metadata_path w channel_url = Some (Fs.Text (Fs.Dumps data)) ->
  load_cached_metadata w s channel_url =
    (version ← get data "version" JNull;
     if negb (eq_int version CACHE_VERSION) then Ret None
     else videos ← deserialize_videos data; Ret (Some videos)).
Proof.
  intros H. unfold load_cached_metadata, Fs.exists_, Fs.read_text.
  rewrite H. rewrite bool_decide_eq_true_2 by eauto. reflexivity.
Qed.

Lemma load_missing (w : world) (s : Fs.fs) (channel_url : string) :
  Fs.exists_ s (_metadata_path w channel_url) = false ->
  load_cached_metadata w s channel_url = Ret None.
Proof. intros H. unfold load_cached_metadata. rewrite H. reflexivity. Qed.

Lemma load_not_json (w : world) (s : Fs.fs) (channel_url : string) (t : Fs.text) :
  Fs.files s !! _metadata_path w channel_url = Some (Fs.Text t) ->
  Fs.json_loads t = Raise JSONDecodeError ->
  load_cached_metadata w s channel_url = Ret None.
Proof.
  intros H Ht. unfold load_cached_metadata, Fs.exists_, Fs.read_text.
  rewrite H, bool_decide_eq_true_2 by eauto. cbn. rewrite Ht. reflexivity.
Qed.

Lemma load_unreadable (w : world) (s : Fs.fs) (channel_url : string) :
  Fs.files s !! _metadata_path w channel_url = Some Fs.Unreadable ->
  load_cached_metadata w s channel_url = Ret None.
Proof.
  intros H. unfold load_cached_metadata, Fs.exists_, Fs.read_text.
  rewrite H, bool_decide_eq_true_2 by eauto. reflexivity.
Qed.

(** A snapshot object of another version is a miss. *)
Lemma load_version_mismatch (w : world) (s : Fs.fs) (channel_url : string)
  (fields : list (string * json)) :
  Fs.files s !! _metadata_path w channel_url = Some (Fs.Text (Fs.Dumps (JObj fields))) ->
  eq_int (match assoc "version" fields with Some v => v | None => JNull end)
         CACHE_VERSION = false ->
  load_cached_metadata w s channel_url = Ret None.
Proof.
  intros H Hv. rewrite (load_document w s channel_url _ H). cbn.
  rewrite Hv. reflexivity.
Qed.

(** A file that is no UTF-8 text is not a miss either. *)
Lemma load_bytes (w : world) (s : Fs.fs) (channel_url : string) :
  Fs.files s !! _metadata_path w channel_url = Some Fs.Bytes ->
  load_cached_metadata w s channel_url = Raise UnicodeDecodeError.
Proof.
  intros H. unfold load_cached_metadata, Fs.exists_, Fs.read_text.
  rewrite H, bool_decide_eq_true_2 by eauto. reflexivity.
Qed.

Lemma load_non_object (w : world) (s : Fs.fs) (channel_url : string) (data : json) :
  Fs.files s !! _metadata_path w channel_url = Some (Fs.Text (Fs.Dumps data)) ->
  match data with JObj _ => False | _ => True end ->
  load_cached_metadata w s channel_url = Raise AttributeError.
Proof.
  intros H Hd. rewrite (load_document w s channel_url _ H).
  destruct data; try reflexivity. contradiction.
Qed.

(** [C3] fails on the code.  A [metadata.json] that holds a JSON document
    other than an object (the text [[]], say) is read without error by
    [json.loads]; [data.get("version")] then raises [AttributeError], which
    [load_cached_metadata] does not catch, nor does [fetch_channel_videos],
    nor does [main]: the run is aborted by the exception. *)
Theorem load_cached_metadata_raises (w : world) (s : Fs.fs) (data : json)
  (args : Cli.Args.t) :
  Fs.files s !! _metadata_path w (Cli.Args.channel_url args)
    = Some (Fs.Text (Fs.Dumps data)) ->
  match data with JObj _ => False | _ => True end ->
  Cli.validate w args = None ->
  load_cached_metadata w s (Cli.Args.channel_url args) = Raise AttributeError
  /\ Cli.exit (Cli.main w args s) = Raise AttributeError.
Proof.
  intros H Hd Hv.
  pose proof (load_non_object w s _ data H Hd) as Hl.
  split; [exact Hl|].
  unfold Cli.main. rewrite Hv.
  unfold Youtube.fetch_channel_videos. rewrite Hl. reflexivity.
Qed.

Lemma load_cached_metadata_raises_witness :
  load_cached_metadata Examples.quiet Examples.with_array
    (Cli.Args.channel_url Examples.args) = Raise AttributeError
  /\ Cli.exit (Cli.main Examples.quiet Examples.args Examples.with_array)
     = Raise AttributeError.
Proof.
  apply (load_cached_metadata_raises Examples.quiet Examples.with_array (JArr [])
           Examples.args).
  - apply lookup_singleton_eq.
  - exact I.
  - reflexivity.
Defined.

Lemma persist_ops_eq (w : world) (channel_url : string) (videos : list VideoMetadata) :
  persist_ops w channel_url videos
  = [Fs.Mkdir (channel_cache_dir w channel_url);
     Fs.Truncate (_metadata_path w channel_url);
     Fs.Write (_metadata_path w channel_url) (Fs.Dumps (serialize_videos w videos))].
Proof. reflexivity. Qed.

Lemma load_after_persist (w : world) (s : Fs.fs) (channel_url : string)
  (videos : list VideoMetadata) :
  Forall storable videos ->
  load_cached_metadata w (Fs.run (persist_ops w channel_url videos) s) channel_url
  = Ret (Some videos).
Proof.
  intros H.
  rewrite (load_document w _ channel_url (serialize_videos w videos)).
  - change (get (serialize_videos w videos) "version" JNull) with (Ret (JInt CACHE_VERSION)).
    cbn -[deserialize_videos serialize_videos].
    rewrite (deserialize_serialize w videos H). reflexivity.
  - cbn. apply lookup_insert_eq.
Qed.

(** [C8].  Records with a non-empty identifier and address (and dates that
    [datetime] can hold) come back from the cache format as they went in:
    the same list, in the same order, every field equal, the identifier,
    address, upload date, duration and position among them.  This holds
    for the serialized value, and for a snapshot stored and loaded. *)
Theorem cache_round_trip (w : world) (s : Fs.fs) (channel_url : string)
  (videos : list VideoMetadata) :
  Forall storable videos ->
  write_fails w = false ->
  deserialize_videos (serialize_videos w videos) = Ret videos
  /\ load_cached_metadata w (snd (persist_metadata w s channel_url videos)) channel_url
     = Ret (Some videos).
Proof.
  intros H Hw. split.
  - apply deserialize_serialize, H.
  - unfold persist_metadata. rewrite Hw. cbn [snd].
    apply load_after_persist, H.
Qed.

Lemma cache_round_trip_witness :
  deserialize_videos
    (serialize_videos Examples.quiet [Examples.video_a; Examples.video_b; Examples.video_c])
  = Ret [Examples.video_a; Examples.video_b; Examples.video_c]
  /\ load_cached_metadata Examples.quiet
       (snd (persist_metadata Examples.quiet Fs.empty Examples.channel
               [Examples.video_a; Examples.video_b; Examples.video_c]))
       Examples.channel
     = Ret (Some [Examples.video_a; Examples.video_b; Examples.video_c]).
Proof.
  apply (cache_round_trip Examples.quiet Fs.empty Examples.channel
           [Examples.video_a; Examples.video_b; Examples.video_c]).
  - repeat constructor; discriminate.
  - reflexivity.
Defined.

(** The file system a reader can see while [persist_metadata] runs: after
    each prefix of its operations. *)
Lemma load_during_persist (w : world) (s : Fs.fs) (channel_url : string)
  (videos : list VideoMetadata) :
  load_cached_metadata w (Fs.run (take 2 (persist_ops w channel_url videos)) s)
    channel_url = Ret None.
Proof.
  apply (load_not_json w _ channel_url Fs.Empty); [|reflexivity].
  cbn. apply lookup_insert_eq.
Qed.

(** [C9] (as amended).  The store writes in place: it creates the channel
    directory, opens [metadata.json] for writing, which empties it, and
    writes the payload; there is no temporary file and no rename.  A load
    between the opening and the write finds an empty file and reports a
    miss without raising; a load after the store returns the records. *)
Theorem persist_metadata_writes_in_place (w : world) (s : Fs.fs)
  (channel_url : string) (videos : list VideoMetadata) :
  Forall storable videos ->
  persist_ops w channel_url videos
  = [Fs.Mkdir (channel_cache_dir w channel_url);
     Fs.Truncate (_metadata_path w channel_url);
     Fs.Write (_metadata_path w channel_url) (Fs.Dumps (serialize_videos w videos))]
  /\ (forall src dst, ~ In (Fs.Rename src dst) (persist_ops w channel_url videos))
  /\ load_cached_metadata w (Fs.run (take 2 (persist_ops w channel_url videos)) s)
       channel_url = Ret None
  /\ load_cached_metadata w (Fs.run (persist_ops w channel_url videos) s) channel_url
     = Ret (Some videos).
Proof.
  intros H. split; [reflexivity|]. split; [|split].
  - intros src dst Hin. rewrite persist_ops_eq in Hin.
    cbn in Hin. intuition discriminate.
  - apply load_during_persist.
  - apply load_after_persist, H.
Qed.

Lemma persist_metadata_writes_in_place_witness :
  persist_ops Examples.quiet Examples.channel [Examples.video_b]
  = [Fs.Mkdir (channel_cache_dir Examples.quiet Examples.channel);
     Fs.Truncate (_metadata_path Examples.quiet Examples.channel);
     Fs.Write (_metadata_path Examples.quiet Examples.channel)
       (Fs.Dumps (serialize_videos Examples.quiet [Examples.video_b]))]
  /\ (forall src dst,
        ~ In (Fs.Rename src dst)
             (persist_ops Examples.quiet Examples.channel [Examples.video_b]))
  /\ load_cached_metadata Examples.quiet
       (Fs.run (take 2 (persist_ops Examples.quiet Examples.channel [Examples.video_b]))
               Examples.with_snapshot)
       Examples.channel = Ret None
  /\ load_cached_metadata Examples.quiet
       (Fs.run (persist_ops Examples.quiet Examples.channel [Examples.video_b])
               Examples.with_snapshot)
       Examples.channel = Ret (Some [Examples.video_b]).
Proof.
  apply (persist_metadata_writes_in_place Examples.quiet Examples.with_snapshot
           Examples.channel [Examples.video_b]).
  repeat constructor; discriminate.
Defined.

(** [C9] as stated fails: while a snapshot of [video_a] is replaced by one
    of [video_b], a reader does not always get the old records or the new
    ones: after the second operation of the store it gets a miss. *)
Lemma persist_metadata_partial_state_visible :
  ~ (forall k : nat,
       load_cached_metadata Examples.quiet
         (Fs.run (take k (persist_ops Examples.quiet Examples.channel [Examples.video_b]))
                 Examples.with_snapshot)
         Examples.channel
       = load_cached_metadata Examples.quiet Examples.with_snapshot Examples.channel
       \/ load_cached_metadata Examples.quiet
            (Fs.run (take k (persist_ops Examples.quiet Examples.channel [Examples.video_b]))
                    Examples.with_snapshot)
            Examples.channel
          = load_cached_metadata Examples.quiet
              (Fs.run (persist_ops Examples.quiet Examples.channel [Examples.video_b])
                      Examples.with_snapshot)
              Examples.channel).
Proof.
  intros H.
  assert (Hold : load_cached_metadata Examples.quiet Examples.with_snapshot
                   Examples.channel = Ret (Some [Examples.video_a])).
  { apply (load_after_persist Examples.quiet Fs.empty Examples.channel [Examples.video_a]).
    repeat constructor; discriminate. }
  assert (Hnew : load_cached_metadata Examples.quiet
                   (Fs.run (persist_ops Examples.quiet Examples.channel [Examples.video_b])
                           Examples.with_snapshot)
                   Examples.channel = Ret (Some [Examples.video_b])).
  { apply load_after_persist. repeat constructor; discriminate. }
  destruct (H 2%nat) as [E | E]; rewrite load_during_persist in E.
  - rewrite Hold in E. discriminate.
  - rewrite Hnew in E. discriminate.
Qed.

End CacheFacts.

(** ** The fetcher *)

Module YoutubeFacts.

Import Youtube.

Lemma size_unfold (e : Ydl.entry) :
  size e = S (match e_entries e with Some items => sizes items | None => 0 end).
Proof.
  destruct e as [? ? ? ? ? ? ? ? ? ? [items|]]; [|reflexivity].
  reflexivity.
Qed.

Lemma push_reversed_eq (entries : list (option Ydl.entry)) (stack : list Ydl.entry) :
  push_reversed entries stack = omap id entries ++ stack.
Proof.
  unfold push_reversed. induction entries as [|item entries IH]; [reflexivity|].
  cbn [rev]. rewrite fold_left_app, IH. destruct item; reflexivity.
Qed.

Lemma stack_size_app (a b : list Ydl.entry) :
  stack_size (a ++ b) = stack_size a + stack_size b.
Proof. induction a as [|e a IH]; cbn; [reflexivity|]. rewrite IH. lia. Qed.

Lemma stack_size_omap (entries : list (option Ydl.entry)) :
  stack_size (omap id entries) = sizes entries.
Proof.
  induction entries as [|[x|] entries IH]; cbn; [reflexivity | rewrite IH | exact IH];
    reflexivity.
Qed.

(** The loop ends: fuel above the number of dictionaries left is enough. *)
Lemma iter_entries_loop_total (fuel : nat) (stack : list Ydl.entry) :
  stack_size stack < fuel -> is_Some (_iter_entries_loop fuel stack).
Proof.
  revert stack. induction fuel as [|fuel IH]; intros stack H; [lia|].
  destruct stack as [|current stack]; cbn [_iter_entries_loop]; [eauto|].
  cbn [stack_size] in H. rewrite (size_unfold current) in H.
  destruct (e_entries current) as [[|item items]|].
  - destruct (IH stack ltac:(lia)) as [l ->]. eauto.
  - apply IH. rewrite push_reversed_eq, stack_size_app, stack_size_omap. lia.
  - destruct (IH stack ltac:(lia)) as [l ->]. eauto.
Qed.

Lemma iter_entries_defined (payload : Ydl.entry) :
  _iter_entries_loop (S (size payload)) [payload] = Some (_iter_entries payload).
Proof.
  unfold _iter_entries.
  destruct (iter_entries_loop_total (S (size payload)) [payload]) as [l ->];
    [cbn; lia | reflexivity].
Qed.

Lemma entry_to_metadata_position (w : world) (e : Ydl.entry) (pos : Z)
  (video : VideoMetadata) :
  _entry_to_metadata w e pos = Some video -> position video = pos.
Proof.
  unfold _entry_to_metadata. intros H.
  repeat match type of H with
         | match ?x with _ => _ end = _ => destruct x; try discriminate
         | (if ?x then _ else _) = _ => destruct x; try discriminate
         end.
  inversion H. reflexivity.
Qed.

(** Each record the loop keeps was made from the entry at its position. *)
Lemma collect_index (w : world) (n : nat) (entries : list Ydl.entry)
  (video : VideoMetadata) :
  video ∈ collect w n entries ->
  exists i entry, entries !! i = Some entry /\ is_live entry = false
    /\ position video = Z.of_nat (n + i)
    /\ _entry_to_metadata w entry (Z.of_nat (n + i)) = Some video.
Proof.
  revert n. induction entries as [|entry entries IH]; intros n H; cbn in H.
  - inversion H.
  - assert (Hrest : video ∈ collect w (S n) entries ->
                    exists i e, (entry :: entries) !! i = Some e /\ is_live e = false
                      /\ position video = Z.of_nat (n + i)
                      /\ _entry_to_metadata w e (Z.of_nat (n + i)) = Some video).
    { intros Hin. destruct (IH (S n) Hin) as (i & e & Hi & Hl & Hp & He).
      exists (S i), e. replace (n + S i)%nat with (S n + i)%nat by lia. auto. }
    destruct (is_live entry) eqn:El; [exact (Hrest H)|].
    destruct (_entry_to_metadata w entry (Z.of_nat n)) as [m|] eqn:Em; [|exact (Hrest H)].
    apply elem_of_cons in H as [-> | H]; [|exact (Hrest H)].
    exists 0%nat, entry. rewrite Nat.add_0_r.
    repeat split; try assumption. eapply entry_to_metadata_position, Em.
Qed.

Lemma collect_lower_bound (w : world) (n : nat) (entries : list Ydl.entry) :
  Forall (fun video => (Z.of_nat n <= position video)%Z) (collect w n entries).
Proof.
  apply Forall_forall. intros video H.
  destruct (collect_index w n entries video H) as (i & e & _ & _ & Hp & _). lia.
Qed.

(** The positions grow along the list the loop builds. *)
Lemma collect_increasing (w : world) (n : nat) (entries : list Ydl.entry) :
  StronglySorted (fun a b => (position a < position b)%Z) (collect w n entries).
Proof.
  revert n. induction entries as [|entry entries IH]; intros n; cbn; [constructor|].
  destruct (is_live entry); [apply IH|].
  destruct (_entry_to_metadata w entry (Z.of_nat n)) as [m|] eqn:Em; [|apply IH].
  constructor; [apply IH|].
  apply entry_to_metadata_position in Em.
  eapply Forall_impl; [apply (collect_lower_bound w (S n) entries)|].
  cbn beta. intros video H. lia.
Qed.

(** A fetch that finds no usable cache and gets the channel at its first
    request returns the sorted records of the loop. *)
Lemma fetch_fresh (w : world) (s : Fs.fs) (channel_url : string) (retries : nat)
  (browser : option string) (info : Ydl.entry) (cached : option (list VideoMetadata))
  (videos : list VideoMetadata) :
  Cache.load_cached_metadata w s channel_url = Ret cached ->
  usable cached = None ->
  extract_info w channel_url (Str.truthy_str browser) 0 = Info (Some info) ->
  fst (fetch_channel_videos w s channel_url (S retries) true false browser) = Ret videos ->
  videos = Order.sort sort_key (collect w 0 (_iter_entries info)).
Proof.
  intros Hload Hcache Hinfo. unfold fetch_channel_videos.
  rewrite Hload, Hcache. cbn [attempts Nat.sub]. rewrite Hinfo.
  unfold finish. rewrite Hcache.
  destruct (Order.sort sort_key (collect w 0 (_iter_entries info))); cbn.
  - discriminate.
  - intros H. inversion H. reflexivity.
Qed.

(** [C6] (as amended).  After a fresh fetch, the returned records are the
    records the loop over [enumerate(_iter_entries(info))] kept, in sorted
    order; the position of each is the index of its entry in that
    enumeration, which counts the dropped entries too; and the positions
    grow strictly along the enumeration, so they are distinct but may leave
    gaps. *)
Theorem positions_are_enumeration_indices (w : world) (s : Fs.fs)
  (channel_url : string) (retries : nat) (browser : option string)
  (info : Ydl.entry) (cached : option (list VideoMetadata))
  (videos : list VideoMetadata) :
  Cache.load_cached_metadata w s channel_url = Ret cached ->
  usable cached = None ->
  extract_info w channel_url (Str.truthy_str browser) 0 = Info (Some info) ->
  fst (fetch_channel_videos w s channel_url (S retries) true false browser) = Ret videos ->
  Permutation videos (collect w 0 (_iter_entries info))
  /\ (forall video, video ∈ videos ->
       exists entry,
         (0 <= position video)%Z
         /\ _iter_entries info !! Z.to_nat (position video) = Some entry
         /\ is_live entry = false
         /\ _entry_to_metadata w entry (position video) = Some video)
  /\ StronglySorted (fun a b => (position a < position b)%Z)
       (collect w 0 (_iter_entries info)).
Proof.
  intros Hload Hcache Hinfo Hfetch.
  pose proof (fetch_fresh w s channel_url retries browser info cached videos
                Hload Hcache Hinfo Hfetch) as ->.
  split; [apply OrderFacts.sort_perm|]. split; [|apply collect_increasing].
  intros video Hin.
  rewrite (OrderFacts.sort_perm sort_key (collect w 0 (_iter_entries info))) in Hin.
  destruct (collect_index w 0 _ video Hin) as (i & entry & Hi & Hl & Hp & He).
  cbn [Nat.add] in Hp, He. exists entry. rewrite Hp, Nat2Z.id.
  repeat split; try assumption. lia.
Qed.

Lemma positions_are_enumeration_indices_witness :
  Permutation
    [mkVideoMetadata "b" "b" "https://example.com/watch?v=b" None (Some 120%Z) 1;
     mkVideoMetadata "c" "c" "https://example.com/watch?v=c" None (Some 300%Z) 3]
    (collect Examples.busy 0 (_iter_entries Examples.payload))
  /\ (forall video,
       video ∈ [mkVideoMetadata "b" "b" "https://example.com/watch?v=b" None (Some 120%Z) 1;
                mkVideoMetadata "c" "c" "https://example.com/watch?v=c" None (Some 300%Z) 3] ->
       exists entry,
         (0 <= position video)%Z
         /\ _iter_entries Examples.payload !! Z.to_nat (position video) = Some entry
         /\ is_live entry = false
         /\ _entry_to_metadata Examples.busy entry (position video) = Some video)
  /\ StronglySorted (fun a b => (position a < position b)%Z)
       (collect Examples.busy 0 (_iter_entries Examples.payload)).
Proof.
  apply (positions_are_enumeration_indices Examples.busy Fs.empty Examples.channel 2
           (Some "chrome") Examples.payload None); reflexivity.
Defined.

(** [C6] as stated fails: on a channel whose enumeration is a short, a
    video, a live broadcast and a video, the two records that survive have
    the positions 1 and 3, not 0 and 1. *)
Lemma positions_have_gaps :
  exists videos,
    fst (fetch_channel_videos Examples.busy Fs.empty Examples.channel 3 true false
           (Some "chrome")) = Ret videos
    /\ map position videos = [1%Z; 3%Z]
    /\ ~ gapless videos.
Proof.
  eexists. split; [vm_compute; reflexivity|]. split; [reflexivity|].
  unfold gapless. cbn. intros H.
  apply Permutation_length_2_inv in H. destruct H as [H | H]; discriminate.
Qed.

End YoutubeFacts.

(** ** The compositor *)

Module VideoFacts.

Import Video.
Local Open Scope Q_scope.

(** [round] is within a half of its argument. *)
Lemma round_half_even_close (x : Q) :
  inject_Z (round_half_even x) - (1 # 2) <= x
  /\ x <= inject_Z (round_half_even x) + (1 # 2).
Proof.
  unfold round_half_even.
  pose proof (Qfloor_le x) as Hlo. pose proof (Qlt_floor x) as Hhi.
  rewrite inject_Z_plus in Hhi. change (inject_Z 1) with 1 in Hhi.
  destruct (Qcompare (x - inject_Z (Qfloor x)) (1 # 2)) eqn:E.
  - apply Qeq_alt in E.
    destruct (Z.even (Qfloor x)); rewrite ?inject_Z_plus;
      change (inject_Z 1) with 1; split; lra.
  - apply Qlt_alt in E. split; lra.
  - apply Qgt_alt in E. rewrite inject_Z_plus. change (inject_Z 1) with 1. split; lra.
Qed.

Lemma write_frames_all (w : world) (frames : list FrameResult.t) :
  Forall (fun item => imread w (FrameResult.frame_path item) = true) frames ->
  write_frames w frames = (Ret tt, map Wrote (map FrameResult.frame_path frames)).
Proof.
  induction 1 as [|item frames Hr _ IH]; cbn; [reflexivity|].
  rewrite Hr, IH. reflexivity.
Qed.

Lemma compile_video_rejects (w : world) (frames : list FrameResult.t) (h : Q) :
  frames = [] \/ h <= 0 ->
  exists message, compile_video w frames h = (Raise (VideoCompilationError message), []).
Proof.
  intros [-> | Hh]; [eexists; reflexivity|].
  destruct frames; [eexists; reflexivity|].
  unfold compile_video. apply Qle_bool_iff in Hh. rewrite Hh. eexists; reflexivity.
Qed.

(** [C7] (as amended).  For a hold duration [h > 0] and a non-empty list of
    results whose images can be read, with a writer that opens, the writer
    is opened at the rate [max(1, round(1/h, 4))]: [1/h] rounded to the
    nearest ten-thousandth, not to an integer, and at least 1; the frames
    are then written one by one in the order given, and the writer is
    released. *)
Theorem compile_video_rate_and_order (w : world) (frames : list FrameResult.t) (h : Q) :
  frames <> [] -> 0 < h -> writer_opens w = true ->
  Forall (fun item => imread w (FrameResult.frame_path item) = true) frames ->
  compile_video w frames h
  = (Ret tt,
     Opened (frame_rate h) :: map Wrote (map FrameResult.frame_path frames) ++ [Released])
  /\ exists n : Z,
       frame_rate h == Qmax 1 (inject_Z n / 10000)
       /\ inject_Z n - (1 # 2) <= (1 / h) * 10000
       /\ (1 / h) * 10000 <= inject_Z n + (1 # 2).
Proof.
  intros Hne Hh Hw Hr. split.
  - destruct frames as [|item frames]; [contradiction|].
    unfold compile_video.
    replace (Qle_bool h 0) with false
      by (symmetry; apply FramesFacts.Qle_bool_false; exact Hh).
    rewrite Hw. cbn [negb]. rewrite (write_frames_all w _ Hr). reflexivity.
  - exists (round_half_even ((1 / h) * 10000)). split; [reflexivity|].
    apply round_half_even_close.
Qed.

Lemma compile_video_rate_and_order_witness :
  compile_video Examples.busy [FrameResult.mk Examples.video_a ["a.png"] None;
                               FrameResult.mk Examples.video_b ["b.png"] None] (3 # 10)
  = (Ret tt,
     Opened (frame_rate (3 # 10))
       :: map Wrote (map FrameResult.frame_path
                       [FrameResult.mk Examples.video_a ["a.png"] None;
                        FrameResult.mk Examples.video_b ["b.png"] None])
       ++ [Released])
  /\ exists n : Z,
       frame_rate (3 # 10) == Qmax 1 (inject_Z n / 10000)
       /\ inject_Z n - (1 # 2) <= (1 / (3 # 10)) * 10000
       /\ (1 / (3 # 10)) * 10000 <= inject_Z n + (1 # 2).
Proof.
  apply (compile_video_rate_and_order Examples.busy
           [FrameResult.mk Examples.video_a ["a.png"] None;
            FrameResult.mk Examples.video_b ["b.png"] None] (3 # 10)).
  - discriminate.
  - reflexivity.
  - reflexivity.
  - repeat constructor.
Defined.

(** [C7] as stated fails: a hold of 0.3 seconds gives the rate 3.3333, which
    is neither [max(1, round(1/0.3))], that is 3, nor any other integer. *)
Lemma frame_rate_not_integer :
  0 < (3 # 10)
  /\ frame_rate (3 # 10) == (33333 # 10000)
  /\ ~ frame_rate (3 # 10) == Qmax 1 (inject_Z (round_half_even (1 / (3 # 10))))
  /\ forall n : Z, ~ frame_rate (3 # 10) == inject_Z n.
Proof.
  split; [reflexivity|]. split; [reflexivity|]. split.
  - intros H. vm_compute in H. discriminate.
  - intros n H.
    assert (E : frame_rate (3 # 10) == (33333 # 10000)) by reflexivity.
    rewrite E in H. unfold Qeq in H. cbn in H. lia.
Qed.

End VideoFacts.

(** ** The run *)

Module CliFacts.

Import Cli.

Lemma exists_mkdir (s : Fs.fs) (d p : Path) :
  Fs.exists_ s p = true -> Fs.exists_ (Fs.mkdir s d) p = true.
Proof.
  unfold Fs.exists_, Fs.mkdir. cbn. rewrite !orb_true_iff, !bool_decide_eq_true.
  intros [H | H]; [left; exact H | right; set_solver].
Qed.

(** The scan raises as soon as it meets a video whose frame is there: the
    call of [FrameResult] leaves out [upload_date]. *)
Lemma resume_scan_raises (s : Fs.fs) (frame_dir : Path) (videos : list VideoMetadata)
  (reused : gmap string FrameResult.t) (video : VideoMetadata) :
  video ∈ videos ->
  Fs.exists_ s (frame_dir ++ [(video_id video ++ ".png")%string]) = true ->
  resume_scan s frame_dir videos reused = Raise TypeError.
Proof.
  intros Hin Hex. revert reused.
  induction videos as [|v videos IH]; intros reused; [inversion Hin|].
  cbn [resume_scan].
  destruct (Fs.exists_ s (frame_dir ++ [(video_id v ++ ".png")%string])) eqn:E;
    [reflexivity|].
  apply elem_of_cons in Hin as [-> | Hin]; [congruence|].
  apply IH, Hin.
Qed.

Lemma resume_scan_nothing (s : Fs.fs) (frame_dir : Path) (videos : list VideoMetadata)
  (reused : gmap string FrameResult.t) :
  Forall (fun video =>
            Fs.exists_ s (frame_dir ++ [(video_id video ++ ".png")%string]) = false)
         videos ->
  resume_scan s frame_dir videos reused = Ret reused.
Proof.
  intros H. revert reused. induction H as [|v videos Hv _ IH]; intros reused;
    cbn [resume_scan]; [reflexivity|].
  rewrite Hv. apply IH.
Qed.

Lemma prepare_resume (w : world) (args : Args.t) (s : Fs.fs) :
  Args.resume args = true ->
  prepare_frame_dir w args s = (Fs.mkdir s (frame_dir_of w args), []).
Proof. intros H. unfold prepare_frame_dir. rewrite H. reflexivity. Qed.

(** [C1] fails on the code.  In a run with [--resume], once the list of
    videos is fetched, a single video whose frame file exists makes the scan
    call [FrameResult(metadata=..., frame_path=...)] without the required
    [upload_date]: [main] ends with [TypeError], before any extraction or
    compilation, instead of taking the frame as a success. *)
Theorem resume_raises_on_cached_frame (w : world) (args : Args.t) (s s1 : Fs.fs)
  (fetched : list VideoMetadata) (video : VideoMetadata) :
  validate w args = None ->
  Args.resume args = true ->
  Youtube.fetch_channel_videos w s (Args.channel_url args) 3 true false
    (Args.browser args) = (Ret fetched, s1) ->
  video ∈ limited args fetched ->
  Fs.exists_ s1 (frame_dir_of w args ++ [(video_id video ++ ".png")%string]) = true ->
  exit (main w args s) = Raise TypeError /\ events (main w args s) = [].
Proof.
  intros Hv Hr Hf Hin Hex. unfold main. rewrite Hv, Hf.
  destruct (limited args fetched) as [|v vs] eqn:El; [inversion Hin|].
  unfold process. rewrite (prepare_resume w args s1 Hr), Hr.
  rewrite (resume_scan_raises _ _ (v :: vs) ∅ video Hin (exists_mkdir _ _ _ Hex)).
  split; reflexivity.
Qed.

Lemma resume_raises_on_cached_frame_witness :
  exit (main Examples.busy Examples.args Fs.empty) = Ret 0%Z
  /\ exit (main Examples.busy Examples.args_resume Examples.after_first_run)
     = Raise TypeError
  /\ events (main Examples.busy Examples.args_resume Examples.after_first_run) = [].
Proof.
  split; [vm_compute; reflexivity|].
  apply (resume_raises_on_cached_frame Examples.busy Examples.args_resume
           Examples.after_first_run Examples.after_first_run
           [mkVideoMetadata "b" "b" "https://example.com/watch?v=b" None (Some 120%Z) 1;
            mkVideoMetadata "c" "c" "https://example.com/watch?v=c" None (Some 300%Z) 3]
           (mkVideoMetadata "b" "b" "https://example.com/watch?v=b" None (Some 120%Z) 1)).
  - reflexivity.
  - reflexivity.
  - vm_compute. reflexivity.
  - constructor.
  - vm_compute. reflexivity.
Defined.

(** *** Empty input *)

Lemma usable_nonempty (cached : option (list VideoMetadata)) (videos : list VideoMetadata) :
  Youtube.usable cached = Some videos -> videos <> [].
Proof.
  destruct cached as [[|v vs]|]; cbn; intros H; inversion H. discriminate.
Qed.

Lemma attempts_return (w : world) (channel_url : string)
  (cached : option (list VideoMetadata)) (max_retries remaining attempt : nat)
  (cookies : bool) (videos : list VideoMetadata) :
  Youtube.attempts w channel_url cached max_retries remaining attempt cookies
    = Youtube.Return videos ->
  Youtube.usable cached = Some videos.
Proof.
  revert attempt cookies.
  induction remaining as [|remaining IH]; intros attempt cookies; cbn; [discriminate|].
  destruct (extract_info w channel_url cookies (attempt - 1)) as [[info|]|message].
  - discriminate.
  - destruct (Youtube.usable cached); [|discriminate]. intros H. inversion H. reflexivity.
  - destruct (cookies && Youtube.cookie_failure message); [apply IH|].
    destruct (attempt =? max_retries)%nat; [|apply IH].
    destruct (Youtube.usable cached); [|discriminate]. intros H. inversion H. reflexivity.
Qed.

Lemma finish_nonempty (w : world) (s : Fs.fs) (channel_url : string)
  (cached : option (list VideoMetadata)) (backlog videos : list VideoMetadata) :
  fst (Youtube.finish w s channel_url cached backlog) = Ret videos -> videos <> [].
Proof.
  unfold Youtube.finish.
  destruct (Order.sort Youtube.sort_key backlog) as [|v vs].
  - destruct (Youtube.usable cached) as [l|] eqn:E; cbn; [|discriminate].
    intros H. inversion H. subst. eapply usable_nonempty, E.
  - cbn. intros H. inversion H. discriminate.
Qed.

(** The fetcher never returns an empty list: it returns records or raises. *)
Lemma fetch_nonempty (w : world) (s : Fs.fs) (channel_url : string) (max_retries : nat)
  (prefer_cache force_refresh : bool) (browser : option string)
  (videos : list VideoMetadata) :
  fst (Youtube.fetch_channel_videos w s channel_url max_retries prefer_cache
         force_refresh browser) = Ret videos ->
  videos <> [].
Proof.
  unfold Youtube.fetch_channel_videos.
  destruct (if prefer_cache then Cache.load_cached_metadata w s channel_url else Ret None)
    as [cached|e]; [|discriminate].
  assert (Hloop :
    fst (match Youtube.attempts w channel_url cached max_retries max_retries 1
                 (Str.truthy_str browser) with
         | Youtube.Return videos => (Ret videos, s)
         | Youtube.Throw e => (Raise e, s)
         | Youtube.Break backlog => Youtube.finish w s channel_url cached backlog
         | Youtube.Exhausted => Youtube.finish w s channel_url cached []
         end) = Ret videos -> videos <> []).
  { destruct (Youtube.attempts _ _ _ _ _ _ _) as [l|e|backlog|] eqn:E.
    - cbn. intros H. inversion H. subst.
      eapply usable_nonempty, attempts_return, E.
    - discriminate.
    - apply finish_nonempty.
    - apply finish_nonempty. }
  destruct (Youtube.usable cached) as [l|] eqn:Eu; [|exact Hloop].
  destruct force_refresh; [exact Hloop|].
  cbn. intros H. inversion H. subst. eapply usable_nonempty, Eu.
Qed.













(** *** The frame directory *)



Lemma pending_of_empty (videos : list VideoMetadata) : pending_of ∅ videos = videos.
Proof.
  unfold pending_of. induction videos as [|v videos IH]; cbn; [reflexivity|].
  rewrite lookup_empty.
  rewrite bool_decide_eq_false_2 by (intros [x Hx]; discriminate).
  cbn. rewrite IH. reflexivity.
Qed.



End CliFacts.

(** * Further properties of the code *)

(** ** frames.py: clamping, the retrieval window and the selector *)

Module FramesExtra.

Import Frames FramesFacts.
Local Open Scope Q_scope.

(** Without a usable duration the capture timestamp is 0, whatever the
    percent: the duration is absent, zero or negative. *)
Theorem timestamp_without_duration (duration : option Z) (p : Q) :
  match duration with Some d => (d <= 0)%Z | None => True end ->
  _calculate_timestamp duration p = 0.
Proof. apply calculate_timestamp_no_duration. Qed.

Lemma timestamp_without_duration_witness :
  _calculate_timestamp None 50 = 0
  /\ _calculate_timestamp (Some 0%Z) 50 = 0
  /\ _calculate_timestamp (Some (-5)%Z) 50 = 0.
Proof.
  split; [|split].
  - apply (timestamp_without_duration None 50). exact I.
  - apply (timestamp_without_duration (Some 0%Z) 50). lia.
  - apply (timestamp_without_duration (Some (-5)%Z) 50). lia.
Defined.

Lemma positive_duration (d : Z) : (0 < d)%Z -> 1 <= inject_Z d.
Proof.
  intros Hd. assert (inject_Z 1 <= inject_Z d) by (rewrite <- Zle_Qle; lia).
  change (inject_Z 1) with 1 in *. lra.
Qed.

Lemma timestamp_of_bounded (d : Z) (p b : Q) :
  (0 < d)%Z -> Qmax 0 (Qmin p 100) == b -> 0 <= b -> b <= 100 ->
  _calculate_timestamp (Some d) p == _calculate_timestamp (Some d) b.
Proof.
  intros Hd Hb H0 H100.
  unfold _calculate_timestamp, no_duration.
  replace (d =? 0)%Z with false by (symmetry; apply Z.eqb_neq; lia).
  replace (d <=? 0)%Z with false by (symmetry; apply Z.leb_gt; lia).
  cbn [orb].
  rewrite (isclose_compat _ b Hb).
  rewrite (isclose_compat (Qmax 0 (Qmin b 100)) b (bounded_id b H0 H100)).
  destruct (isclose b 100); [reflexivity|].
  rewrite Hb, (bounded_id b H0 H100). reflexivity.
Qed.

(** A percentage outside [[0, 100]] counts as the nearer bound: above 100
    the timestamp is the one of 100, which is [d - 0.1]; below 0 it is 0. *)
Theorem calculate_timestamp_clamps (d : Z) (p : Q) :
  (0 < d)%Z ->
  (100 <= p -> _calculate_timestamp (Some d) p == inject_Z d - (1 # 10))
  /\ (p <= 0 -> _calculate_timestamp (Some d) p == 0).
Proof.
  intros Hd. pose proof (positive_duration d Hd) as HD. split; intros Hp.
  - rewrite (timestamp_of_bounded d p 100 Hd); try lra.
    + apply timestamp_close; try assumption; try lra. reflexivity.
    + rewrite (Q.min_r p 100) by assumption. reflexivity.
  - rewrite (timestamp_of_bounded d p 0 Hd); try lra.
    + rewrite timestamp_linear; try assumption; try lra; [field | reflexivity].
    + rewrite (Q.min_l p 100) by lra. apply Q.max_l. assumption.
Qed.

Lemma calculate_timestamp_clamps_witness :
  _calculate_timestamp (Some 90%Z) 250 == inject_Z 90 - (1 # 10)
  /\ _calculate_timestamp (Some 90%Z) (-(3)) == 0.
Proof.
  split.
  - apply (proj1 (calculate_timestamp_clamps 90 250 ltac:(lia))). lra.
  - apply (proj2 (calculate_timestamp_clamps 90 (-(3)) ltac:(lia))). lra.
Defined.

Lemma window_facts (d : Z) (target : Q) :
  (0 < d)%Z -> 0 <= target -> target <= inject_Z d ->
  0 <= fst (_determine_window target (Some d))
  /\ fst (_determine_window target (Some d)) <= target
  /\ target <= snd (_determine_window target (Some d))
  /\ snd (_determine_window target (Some d)) <= inject_Z d
  /\ 1 <= snd (_determine_window target (Some d)) - fst (_determine_window target (Some d)).
Proof.
  intros Hd H0 Ht. pose proof (positive_duration d Hd) as HD.
  unfold _determine_window.
  replace (d =? 0)%Z with false by (symmetry; apply Z.eqb_neq; lia).
  destruct (Q.max_spec 0 (target - (3 # 2))) as [[Hs1 Hs2] | [Hs1 Hs2]];
    destruct (Q.min_spec (target + (3 # 2)) (inject_Z d)) as [[He1 He2] | [He1 He2]];
    destruct (Qlt_le_dec _ _) as [Hlt | Hle]; cbn [fst snd];
    try (exfalso; lra); repeat split; lra.
Qed.

(** For a known duration [d >= 1] and a target in [[0, d]], the window
    contains the target, lies in [[0, d]] and spans at least one second, so
    the widening to 0.75 seconds never applies. *)
Theorem determine_window_bounds (d : Z) (target : Q) :
  (0 < d)%Z -> 0 <= target -> target <= inject_Z d ->
  0 <= fst (_determine_window target (Some d))
  /\ fst (_determine_window target (Some d)) <= target
  /\ target <= snd (_determine_window target (Some d))
  /\ snd (_determine_window target (Some d)) <= inject_Z d
  /\ 1 <= snd (_determine_window target (Some d)) - fst (_determine_window target (Some d)).
Proof. apply window_facts. Qed.

Lemma determine_window_bounds_witness :
  0 <= fst (_determine_window (1 # 2) (Some 10%Z))
  /\ fst (_determine_window (1 # 2) (Some 10%Z)) <= (1 # 2)
  /\ (1 # 2) <= snd (_determine_window (1 # 2) (Some 10%Z))
  /\ snd (_determine_window (1 # 2) (Some 10%Z)) <= inject_Z 10
  /\ 1 <= snd (_determine_window (1 # 2) (Some 10%Z))
          - fst (_determine_window (1 # 2) (Some 10%Z)).
Proof.
  apply (determine_window_bounds 10 (1 # 2)); [lia | lra | unfold Qle; cbn; lia].
Defined.




End FramesExtra.

(** ** youtube.py: the walk, the filter and the cache protocol *)

Module YoutubeExtra.

Import Youtube YoutubeFacts.

Lemma flatten_unfold (e : Ydl.entry) :
  flatten e = match e_entries e with
              | Some (item :: items) => leaves_of (item :: items)
              | _ => [e]
              end.
Proof. destruct e as [? ? ? ? ? ? ? ? ? ? [[|item items]|]]; reflexivity. Qed.

Lemma flat_map_omap (l : list (option Ydl.entry)) :
  flat_map flatten (omap id l) = leaves_of l.
Proof.
  induction l as [|[x|] l IH]; cbn; [reflexivity | rewrite IH | exact IH]; reflexivity.
Qed.

Lemma iter_entries_loop_flatten (fuel : nat) (stack : list Ydl.entry) :
  stack_size stack < fuel ->
  _iter_entries_loop fuel stack = Some (flat_map flatten stack).
Proof.
  revert stack. induction fuel as [|fuel IH]; intros stack H; [lia|].
  destruct stack as [|current stack]; cbn [_iter_entries_loop flat_map]; [reflexivity|].
  cbn [stack_size] in H. rewrite (size_unfold current) in H.
  rewrite (flatten_unfold current).
  destruct (e_entries current) as [[|item items]|].
  - rewrite (IH stack) by lia. reflexivity.
  - rewrite push_reversed_eq, IH
      by (rewrite stack_size_app, stack_size_omap; lia).
    rewrite flat_map_app, flat_map_omap. reflexivity.
  - rewrite (IH stack) by lia. reflexivity.
Qed.

(** The generator yields the dictionaries without entries of their own, in
    the order of a depth-first walk from left to right; [None] items and
    empty [entries] lists aside, nothing is dropped or repeated. *)
Theorem iter_entries_is_depth_first (payload : Ydl.entry) :
  _iter_entries payload = flatten payload.
Proof.
  unfold _iter_entries.
  rewrite (iter_entries_loop_flatten (S (size payload)) [payload]) by (cbn; lia).
  cbn. apply app_nil_r.
Qed.

Lemma entry_to_metadata_eligible (w : world) (entry : Ydl.entry) (pos : Z)
  (video : VideoMetadata) :
  _entry_to_metadata w entry pos = Some video -> eligible video.
Proof.
  unfold _entry_to_metadata, eligible. intros H.
  destruct (Str.or_str (e_webpage_url entry) (e_url entry)) as [u|]; [|discriminate].
  destruct (Str.nonempty u) eqn:Eu; [|discriminate]. cbn [negb] in H.
  destruct (Str.contains SHORT_URL_SEGMENT (Str.lower u)) eqn:Es; [discriminate|].
  destruct (match option_map int_of (e_duration entry) with
            | Some d => (d <? MIN_DURATION_SECONDS)%Z
            | None => false
            end) eqn:Ed; [discriminate|].
  destruct (Str.or_str (e_id entry) (e_display_id entry)) as [i|]; [|discriminate].
  destruct (Str.nonempty i) eqn:Ei; [|discriminate]. cbn [negb] in H.
  inversion H. subst. cbn.
  repeat split; try assumption.
  - destruct (e_title entry) as [t|]; cbn; [|reflexivity].
    destruct (Str.nonempty t) eqn:Et; [exact Et | reflexivity].
  - destruct (option_map int_of (e_duration entry)) as [d|]; [|exact I].
    apply Z.ltb_ge in Ed. exact Ed.
Qed.

Lemma collect_eligible (w : world) (n : nat) (entries : list Ydl.entry) :
  Forall eligible (collect w n entries).
Proof.
  apply Forall_forall. intros video H.
  destruct (collect_index w n entries video H) as (i & e & _ & _ & _ & He).
  eapply entry_to_metadata_eligible, He.
Qed.

(** Every record of a fresh fetch is eligible: its identifier, address and
    title are not empty, its address has no shorts segment, and its
    duration, when known, is a minute or more. *)
Theorem fetched_records_are_eligible (w : world) (s : Fs.fs) (channel_url : string)
  (retries : nat) (browser : option string) (info : Ydl.entry)
  (cached : option (list VideoMetadata)) (videos : list VideoMetadata) :
  Cache.load_cached_metadata w s channel_url = Ret cached ->
  usable cached = None ->
  extract_info w channel_url (Str.truthy_str browser) 0 = Info (Some info) ->
  fst (fetch_channel_videos w s channel_url (S retries) true false browser) = Ret videos ->
  Forall eligible videos.
Proof.
  intros Hload Hcache Hinfo Hfetch.
  rewrite (fetch_fresh w s channel_url retries browser info cached videos
             Hload Hcache Hinfo Hfetch).
  rewrite (OrderFacts.sort_perm sort_key _). apply collect_eligible.
Qed.

Lemma fetched_records_are_eligible_witness :
  Forall eligible
    [mkVideoMetadata "b" "b" "https://example.com/watch?v=b" None (Some 120%Z) 1;
     mkVideoMetadata "c" "c" "https://example.com/watch?v=c" None (Some 300%Z) 3].
Proof.
  apply (fetched_records_are_eligible Examples.busy Fs.empty Examples.channel 2
           (Some "chrome") Examples.payload None); reflexivity.
Defined.

(** A fresh fetch returns its records sorted: each record stands before the
    next by the key (upload date, an absent date counting as the latest;
    position). *)
Theorem fetched_records_are_sorted (w : world) (s : Fs.fs) (channel_url : string)
  (retries : nat) (browser : option string) (info : Ydl.entry)
  (cached : option (list VideoMetadata)) (videos : list VideoMetadata) :
  Cache.load_cached_metadata w s channel_url = Ret cached ->
  usable cached = None ->
  extract_info w channel_url (Str.truthy_str browser) 0 = Info (Some info) ->
  fst (fetch_channel_videos w s channel_url (S retries) true false browser) = Ret videos ->
  Sorted (Order.precedes sort_key) videos.
Proof.
  intros Hload Hcache Hinfo Hfetch.
  rewrite (fetch_fresh w s channel_url retries browser info cached videos
             Hload Hcache Hinfo Hfetch).
  apply OrderFacts.sort_sorted.
Qed.

Lemma fetched_records_are_sorted_witness :
  Sorted (Order.precedes sort_key)
    [mkVideoMetadata "b" "b" "https://example.com/watch?v=b" None (Some 120%Z) 1;
     mkVideoMetadata "c" "c" "https://example.com/watch?v=c" None (Some 300%Z) 3].
Proof.
  apply (fetched_records_are_sorted Examples.busy Fs.empty Examples.channel 2
           (Some "chrome") Examples.payload None); reflexivity.
Defined.

(** *** The cache protocol *)

Lemma load_same_place (w w' : world) (s : Fs.fs) (channel_url : string) :
  cache_root w' = cache_root w -> sha256_hex w' = sha256_hex w ->
  Cache.load_cached_metadata w' s channel_url = Cache.load_cached_metadata w s channel_url.
Proof.
  intros Hr Hh. unfold Cache.load_cached_metadata, Cache._metadata_path,
    Cache.channel_cache_dir, Cache._channel_key.
  rewrite Hr, Hh. reflexivity.
Qed.

Lemma entry_to_metadata_date (w : world) (entry : Ydl.entry) (pos : Z)
  (video : VideoMetadata) :
  sound_dates w ->
  _entry_to_metadata w entry pos = Some video ->
  match upload_date video with
  | Some d => Datetime.valid d = true
  | None => True
  end.
Proof.
  intros [Hs Ht]. unfold _entry_to_metadata. intros H.
  repeat match type of H with
         | match ?x with _ => _ end = _ => destruct x; try discriminate
         | (if ?x then _ else _) = _ => destruct x; try discriminate
         end;
    inversion H; subst; cbn;
    (destruct (_parse_upload_date w (raw_upload_date entry)) as [d|] eqn:E; [|exact I]);
    unfold _parse_upload_date in E;
    (destruct (raw_upload_date entry) as [[x|t]|]; [eapply Hs, E | eapply Ht, E | discriminate]).
Qed.

Lemma collect_storable (w : world) (n : nat) (entries : list Ydl.entry) :
  sound_dates w -> Forall Cache.storable (collect w n entries).
Proof.
  intros Hw. apply Forall_forall. intros video H.
  destruct (collect_index w n entries video H) as (i & e & _ & _ & _ & He).
  destruct (entry_to_metadata_eligible w e _ video He) as (Hi & Hu & _).
  unfold Cache.storable, Str.nonempty in *.
  apply negb_true_iff in Hi, Hu. apply String.eqb_neq in Hi, Hu.
  repeat split; try assumption.
  eapply entry_to_metadata_date; eassumption.
Qed.

(** A fresh fetch that can write its snapshot makes the next fetch a cache
    hit: whatever the channel then answers, and whatever browser or number
    of retries is asked for, a fetch on the file system it leaves returns
    the same list and changes nothing. *)
Theorem fetch_refreshes_cache (w w' : world) (s s' : Fs.fs) (channel_url : string)
  (retries retries' : nat) (browser browser' : option string) (info : Ydl.entry)
  (cached : option (list VideoMetadata)) (videos : list VideoMetadata) :
  Cache.load_cached_metadata w s channel_url = Ret cached ->
  usable cached = None ->
  extract_info w channel_url (Str.truthy_str browser) 0 = Info (Some info) ->
  write_fails w = false ->
  sound_dates w ->
  fetch_channel_videos w s channel_url (S retries) true false browser = (Ret videos, s') ->
  cache_root w' = cache_root w -> sha256_hex w' = sha256_hex w ->
  Cache.load_cached_metadata w' s' channel_url = Ret (Some videos)
  /\ fetch_channel_videos w' s' channel_url retries' true false browser'
     = (Ret videos, s').
Proof.
  intros Hload Hcache Hinfo Hwrite Hdates Hfetch Hroot Hsha.
  assert (Hst : Forall Cache.storable videos).
  { rewrite (fetch_fresh w s channel_url retries browser info cached videos
               Hload Hcache Hinfo (f_equal fst Hfetch)).
    rewrite (OrderFacts.sort_perm sort_key _). apply collect_storable, Hdates. }
  assert (Hs' : s' = Fs.run (Cache.persist_ops w channel_url videos) s
                /\ videos <> []).
  { revert Hfetch. unfold fetch_channel_videos.
    rewrite Hload, Hcache. cbn [attempts Nat.sub]. rewrite Hinfo.
    unfold finish. rewrite Hcache.
    destruct (Order.sort sort_key (collect w 0 (_iter_entries info))) as [|v vs];
      [discriminate|].
    unfold Cache.persist_metadata. rewrite Hwrite. cbn [snd].
    intros H. inversion H. subst. split; [reflexivity | discriminate]. }
  destruct Hs' as [-> Hne].
  assert (Hl : Cache.load_cached_metadata w'
                 (Fs.run (Cache.persist_ops w channel_url videos) s) channel_url
               = Ret (Some videos)).
  { rewrite (load_same_place w w' _ channel_url Hroot Hsha).
    apply CacheFacts.load_after_persist, Hst. }
  split; [exact Hl|].
  unfold fetch_channel_videos. rewrite Hl.
  destruct videos as [|v vs]; [contradiction|]. reflexivity.
Qed.

Lemma fetch_refreshes_cache_witness :
  Cache.load_cached_metadata Examples.quiet
    (snd (fetch_channel_videos Examples.busy Fs.empty Examples.channel 3 true false
            (Some "chrome")))
    Examples.channel
  = Ret (Some [mkVideoMetadata "b" "b" "https://example.com/watch?v=b" None (Some 120%Z) 1;
               mkVideoMetadata "c" "c" "https://example.com/watch?v=c" None (Some 300%Z) 3])
  /\ fetch_channel_videos Examples.quiet
       (snd (fetch_channel_videos Examples.busy Fs.empty Examples.channel 3 true false
               (Some "chrome")))
       Examples.channel 1 true false None
     = (Ret [mkVideoMetadata "b" "b" "https://example.com/watch?v=b" None (Some 120%Z) 1;
             mkVideoMetadata "c" "c" "https://example.com/watch?v=c" None (Some 300%Z) 3],
        snd (fetch_channel_videos Examples.busy Fs.empty Examples.channel 3 true false
               (Some "chrome"))).
Proof.
  apply (fetch_refreshes_cache Examples.busy Examples.quiet Fs.empty _ Examples.channel
           2 1 (Some "chrome") None Examples.payload None).
  - reflexivity.
  - reflexivity.
  - reflexivity.
  - reflexivity.
  - split; intros ? ? H; discriminate.
  - vm_compute. reflexivity.
  - reflexivity.
  - reflexivity.
Defined.

Lemma attempts_all_fail (w : world) (channel_url : string)
  (cached : option (list VideoMetadata)) (max_retries remaining attempt : nat)
  (cookies : bool) :
  (forall c n, exists message,
      extract_info w channel_url c n = DownloadError message
      /\ cookie_failure message = false) ->
  attempt + remaining = S max_retries -> 0 < remaining ->
  match usable cached with
  | Some videos =>
      attempts w channel_url cached max_retries remaining attempt cookies = Return videos
  | None =>
      exists message,
        attempts w channel_url cached max_retries remaining attempt cookies
        = Throw (ChannelFetchError message)
  end.
Proof.
  intros Hfail. revert attempt cookies.
  induction remaining as [|remaining IH]; intros attempt cookies Hsum Hpos; [lia|].
  cbn [attempts].
  destruct (Hfail cookies (attempt - 1)) as (message & -> & Hc).
  rewrite Hc, andb_false_r.
  destruct (Nat.eqb_spec attempt max_retries) as [-> | Hne].
  - destruct (usable cached); [reflexivity | eexists; reflexivity].
  - apply IH; lia.
Qed.

(** When every request fails with a download error that is no cookie
    failure, a fetch that goes upstream (a refresh is forced, or there is
    no usable cached list) ends with the cached list when there is a usable
    one and raises [ChannelFetchError] otherwise; the file system is left
    as it was. *)
Theorem fetch_falls_back_to_cache (w : world) (s : Fs.fs) (channel_url : string)
  (retries : nat) (force_refresh : bool) (browser : option string)
  (cached : option (list VideoMetadata)) :
  Cache.load_cached_metadata w s channel_url = Ret cached ->
  force_refresh = true \/ usable cached = None ->
  (forall c n, exists message,
      extract_info w channel_url c n = DownloadError message
      /\ cookie_failure message = false) ->
  match usable cached with
  | Some videos =>
      fetch_channel_videos w s channel_url (S retries) true force_refresh browser
      = (Ret videos, s)
  | None =>
      exists message,
        fetch_channel_videos w s channel_url (S retries) true force_refresh browser
        = (Raise (ChannelFetchError message), s)
  end.
Proof.
  intros Hload Hup Hfail. unfold fetch_channel_videos. rewrite Hload.
  pose proof (attempts_all_fail w channel_url cached (S retries) (S retries) 1
                (Str.truthy_str browser) Hfail ltac:(lia) ltac:(lia)) as Ha.
  destruct (usable cached) as [videos|] eqn:Eu.
  - destruct Hup as [-> | Hn]; [|discriminate]. rewrite Ha. reflexivity.
  - destruct Ha as [message Ha]. exists message.
    destruct force_refresh; rewrite Ha; reflexivity.
Qed.

Lemma fetch_falls_back_to_cache_witness :
  fetch_channel_videos Examples.offline Examples.with_snapshot Examples.channel 3
    true true (Some "chrome")
  = (Ret [Examples.video_a], Examples.with_snapshot).
Proof.
  apply (fetch_falls_back_to_cache Examples.offline Examples.with_snapshot
           Examples.channel 2 true (Some "chrome") (Some [Examples.video_a])).
  - apply (CacheFacts.load_after_persist Examples.quiet Fs.empty Examples.channel
             [Examples.video_a]).
    repeat constructor; discriminate.
  - left. reflexivity.
  - intros c n. eexists. split; reflexivity.
Defined.

(** Whatever the cache, the options and the answers of yt-dlp, a fetch that
    returns hands back at least one record: the other outcome is an
    exception. *)
Theorem fetch_never_returns_empty (w : world) (s : Fs.fs) (channel_url : string)
  (max_retries : nat) (prefer_cache force_refresh : bool) (browser : option string)
  (videos : list VideoMetadata) :
  fst (fetch_channel_videos w s channel_url max_retries prefer_cache force_refresh
         browser) = Ret videos ->
  videos <> [].
Proof. apply CliFacts.fetch_nonempty. Qed.

Lemma fetch_never_returns_empty_witness :
  fst (fetch_channel_videos Examples.busy Fs.empty Examples.channel 3 true false
         (Some "chrome"))
  = Ret [mkVideoMetadata "b" "b" "https://example.com/watch?v=b" None (Some 120%Z) 1;
         mkVideoMetadata "c" "c" "https://example.com/watch?v=c" None (Some 300%Z) 3]
  /\ [mkVideoMetadata "b" "b" "https://example.com/watch?v=b" None (Some 120%Z) 1;
      mkVideoMetadata "c" "c" "https://example.com/watch?v=c" None (Some 300%Z) 3] <> [].
Proof.
  split; [reflexivity|].
  apply (fetch_never_returns_empty Examples.busy Fs.empty Examples.channel 3 true false
           (Some "chrome")).
  reflexivity.
Defined.

End YoutubeExtra.

(** ** cache.py: misses, failures and incomplete items *)

Module CacheExtra.

Import Cache CacheFacts.

(** A missing file, an unreadable file, a text that is no JSON document and
    a snapshot object of another version are all cache misses: the load
    returns [None] and raises nothing. *)
Theorem load_cached_metadata_misses (w : world) (s : Fs.fs) (channel_url : string) :
  Fs.exists_ s (_metadata_path w channel_url) = false
  \/ Fs.files s !! _metadata_path w channel_url = Some Fs.Unreadable
  \/ (exists t, Fs.files s !! _metadata_path w channel_url = Some (Fs.Text t)
                /\ Fs.json_loads t = Raise JSONDecodeError)
  \/ (exists fields,
        Fs.files s !! _metadata_path w channel_url
          = Some (Fs.Text (Fs.Dumps (JObj fields)))
        /\ eq_int (match assoc "version" fields with Some v => v | None => JNull end)
                  CACHE_VERSION = false) ->
  load_cached_metadata w s channel_url = Ret None.
Proof.
  intros [H | [H | [(t & H & Ht) | (fields & H & Hv)]]].
  - apply load_missing, H.
  - apply load_unreadable, H.
  - eapply load_not_json; eassumption.
  - eapply load_version_mismatch; eassumption.
Qed.

Lemma load_cached_metadata_misses_witness :
  load_cached_metadata Examples.quiet Fs.empty Examples.channel = Ret None
  /\ load_cached_metadata Examples.quiet Examples.with_stale Examples.channel = Ret None.
Proof.
  split.
  - apply (load_cached_metadata_misses Examples.quiet Fs.empty Examples.channel).
    left. reflexivity.
  - apply (load_cached_metadata_misses Examples.quiet Examples.with_stale
             Examples.channel).
    right. right. right. eexists. split; [apply lookup_singleton_eq | reflexivity].
Defined.

(** A cache file that is no UTF-8 text is not treated as a miss:
    [read_text] raises [UnicodeDecodeError], which is neither of the two
    exceptions caught, so the load raises it. *)
Theorem load_cached_metadata_undecodable (w : world) (s : Fs.fs) (channel_url : string) :
  Fs.files s !! _metadata_path w channel_url = Some Fs.Bytes ->
  load_cached_metadata w s channel_url = Raise UnicodeDecodeError.
Proof. apply load_bytes. Qed.

Lemma load_cached_metadata_undecodable_witness :
  load_cached_metadata Examples.quiet Examples.with_image Examples.channel
  = Raise UnicodeDecodeError.
Proof.
  apply (load_cached_metadata_undecodable Examples.quiet Examples.with_image
           Examples.channel).
  apply lookup_singleton_eq.
Defined.

Lemma as_str_truthy (j : json) (x : string) :
  truthy j = true -> as_str j = Ret x -> x <> "".
Proof.
  destruct j; cbn; try discriminate. intros Ht H. inversion H. subst.
  apply negb_true_iff in Ht. apply String.eqb_neq in Ht. exact Ht.
Qed.

Lemma deserialize_item_grows (items items' : list VideoMetadata) (item : json) :
  deserialize_item items item = Ret items' ->
  items' = items
  \/ exists video, items' = items ++ [video]
                   /\ video_id video <> "" /\ url video <> "".
Proof.
  unfold deserialize_item. destruct item as [| | | | | |fields]; try discriminate.
  cbn [get mbind py_bind Py.bind].
  destruct (parse_upload_raw _) as [upload|e]; [|discriminate].
  remember (match assoc "video_id" fields with Some v => v | None => JNull end)
    as vid eqn:Hvid.
  remember (match assoc "url" fields with Some v => v | None => JNull end)
    as u eqn:Hu.
  remember (match assoc "title" fields with Some v => v | None => JStr "Untitled" end)
    as ttl eqn:Httl.
  remember (match assoc "duration" fields with Some v => v | None => JNull end)
    as dur eqn:Hdur.
  remember (match assoc "position" fields with
            | Some v => v
            | None => JInt (Z.of_nat (length items))
            end) as pos eqn:Hpos.
  clear Hvid Hu Httl Hdur Hpos.
  destruct (truthy vid) eqn:Ev; [|intros H; inversion H; left; reflexivity].
  destruct (truthy u) eqn:Eu; [|intros H; inversion H; left; reflexivity].
  cbn [negb orb].
  destruct (as_str vid) as [x|e] eqn:Ex; [|discriminate].
  destruct (as_str ttl) as [t|e]; [|discriminate].
  destruct (as_str u) as [y|e] eqn:Ey; [|discriminate].
  destruct (as_optional_int dur) as [d|e]; [|discriminate].
  destruct (as_int pos) as [n|e]; [|discriminate].
  intros H. inversion H. right. eexists. split; [reflexivity|]. cbn.
  split; [exact (as_str_truthy vid x Ev Ex) | exact (as_str_truthy u y Eu Ey)].
Qed.

Lemma deserialize_loop_invariant (items out : list VideoMetadata) (rest : list json) :
  Forall (fun video => video_id video <> "" /\ url video <> "") items ->
  deserialize_loop items rest = Ret out ->
  Forall (fun video => video_id video <> "" /\ url video <> "") out.
Proof.
  revert items. induction rest as [|item rest IH]; intros items Hitems; cbn.
  - intros H. inversion H. subst. exact Hitems.
  - destruct (deserialize_item items item) as [items'|e] eqn:E; [|discriminate].
    cbn. apply IH.
    destruct (deserialize_item_grows items items' item E) as [-> | (v & -> & Hv)];
      [exact Hitems|].
    apply Forall_app. split; [exact Hitems|]. constructor; [exact Hv | constructor].
Qed.

(** Whatever the snapshot holds, the records [deserialize_videos] returns
    have an identifier and an address that are not empty: an item that
    lacks one of them is left out. *)
Theorem deserialized_records_have_id_and_url (data : json) (videos : list VideoMetadata) :
  deserialize_videos data = Ret videos ->
  Forall (fun video => video_id video <> "" /\ url video <> "") videos.
Proof.
  unfold deserialize_videos.
  destruct (get data "videos" (JArr [])) as [raw|e]; [|discriminate]. cbn.
  destruct (iter raw) as [entries|e]; [|discriminate]. cbn.
  apply deserialize_loop_invariant. constructor.
Qed.

Lemma deserialized_records_have_id_and_url_witness :
  Forall (fun video => video_id video <> "" /\ url video <> "")
    [mkVideoMetadata "k" "Untitled" "https://example.com/watch?v=k" None None 0].
Proof.
  apply (deserialized_records_have_id_and_url
           (JObj [("videos",
                   JArr [JObj [("video_id", JStr ""); ("url", JStr "https://example.com/x")];
                         JObj [("title", JStr "no address"); ("video_id", JStr "n")];
                         JObj [("video_id", JStr "k");
                               ("url", JStr "https://example.com/watch?v=k");
                               ("upload_date", JStr "yesterday")]])])).
  reflexivity.
Defined.

End CacheExtra.

(** ** video.py: the placement of a frame on the canvas *)

Module VideoExtra.

Import Video.
Local Open Scope Q_scope.

Lemma int_of_bounds (x : Q) (n : Z) :
  0 <= x -> x <= inject_Z n -> (0 <= int_of x <= n)%Z.
Proof.
  intros H0 Hn. unfold int_of. destruct x as [a b].
  unfold Qle in *. cbn in *.
  rewrite Z.quot_div_nonneg by lia. split.
  - apply Z.div_pos; lia.
  - apply Z.div_le_upper_bound; lia.
Qed.

Lemma scaled_side (side other target target' : Z) :
  (0 < side)%Z -> (0 < other)%Z -> (0 < target)%Z -> (0 < target')%Z ->
  0 <= inject_Z side
       * Qmin (inject_Z target / inject_Z side) (inject_Z target' / inject_Z other)
  /\ inject_Z side
       * Qmin (inject_Z target / inject_Z side) (inject_Z target' / inject_Z other)
     <= inject_Z target.
Proof.
  intros Hs Ho Ht Ht'.
  assert (HS : 0 < inject_Z side) by (change 0 with (inject_Z 0); rewrite <- Zlt_Qlt; lia).
  assert (HO : 0 < inject_Z other) by (change 0 with (inject_Z 0); rewrite <- Zlt_Qlt; lia).
  assert (HT : 0 <= inject_Z target) by (change 0 with (inject_Z 0); rewrite <- Zle_Qle; lia).
  assert (HT' : 0 <= inject_Z target') by (change 0 with (inject_Z 0); rewrite <- Zle_Qle; lia).
  set (scale := Qmin _ _).
  assert (Hpos : 0 <= scale).
  { apply Q.min_glb; apply Qle_shift_div_l; try assumption; lra. }
  assert (Hle : scale <= inject_Z target / inject_Z side) by apply Q.le_min_l.
  split.
  - apply Qmult_le_0_compat; [lra | exact Hpos].
  - apply (Qmult_le_compat_r _ _ (inject_Z side)) in Hle; [|lra].
    assert (E : inject_Z target / inject_Z side * inject_Z side == inject_Z target)
      by (field; lra).
    rewrite E in Hle. rewrite Qmult_comm. exact Hle.
Qed.

(** For an image of positive width and height, the resized frame is at
    least one pixel and at most the canvas in each direction, and the place
    it is put at keeps it inside the canvas, the margins before and after
    it differing by one pixel at most: the assignment into the canvas
    always fits. *)
Theorem letterbox_fits_canvas (width height : Z) :
  (0 < width)%Z -> (0 < height)%Z ->
  let g := _letterbox_frame width height in
  (1 <= new_width g <= TARGET_WIDTH)%Z
  /\ (1 <= new_height g <= TARGET_HEIGHT)%Z
  /\ (0 <= x_offset g)%Z /\ (x_offset g + new_width g <= TARGET_WIDTH)%Z
  /\ (0 <= y_offset g)%Z /\ (y_offset g + new_height g <= TARGET_HEIGHT)%Z
  /\ (0 <= (TARGET_WIDTH - new_width g - x_offset g) - x_offset g <= 1)%Z
  /\ (0 <= (TARGET_HEIGHT - new_height g - y_offset g) - y_offset g <= 1)%Z.
Proof.
  intros Hw Hh. unfold _letterbox_frame. cbn zeta.
  cbn [new_width new_height x_offset y_offset].
  destruct (scaled_side width height TARGET_WIDTH TARGET_HEIGHT Hw Hh eq_refl eq_refl)
    as [Hw0 Hw1].
  assert (Hh' : 0 <= inject_Z height
                     * Qmin (inject_Z TARGET_WIDTH / inject_Z width)
                            (inject_Z TARGET_HEIGHT / inject_Z height)
                /\ inject_Z height
                     * Qmin (inject_Z TARGET_WIDTH / inject_Z width)
                            (inject_Z TARGET_HEIGHT / inject_Z height)
                   <= inject_Z TARGET_HEIGHT).
  { rewrite Q.min_comm.
    apply (scaled_side height width TARGET_HEIGHT TARGET_WIDTH Hh Hw eq_refl eq_refl). }
  destruct Hh' as [Hh0 Hh1].
  pose proof (int_of_bounds _ _ Hw0 Hw1) as Bw.
  pose proof (int_of_bounds _ _ Hh0 Hh1) as Bh.
  set (nw := Z.max 1 (int_of (inject_Z width * _))) in *.
  set (nh := Z.max 1 (int_of (inject_Z height * _))) in *.
  unfold TARGET_WIDTH, TARGET_HEIGHT in *.
  assert (Hnw : (1 <= nw <= 1920)%Z) by (subst nw; lia).
  assert (Hnh : (1 <= nh <= 1080)%Z) by (subst nh; lia).
  pose proof (Z.div_mod (1920 - nw) 2 ltac:(lia)) as Dw.
  pose proof (Z.mod_pos_bound (1920 - nw) 2 ltac:(lia)) as Mw.
  pose proof (Z.div_mod (1080 - nh) 2 ltac:(lia)) as Dh.
  pose proof (Z.mod_pos_bound (1080 - nh) 2 ltac:(lia)) as Mh.
  repeat split; lia.
Qed.

Lemma letterbox_fits_canvas_witness :
  let g := _letterbox_frame 1280 720 in
  (1 <= new_width g <= TARGET_WIDTH)%Z
  /\ (1 <= new_height g <= TARGET_HEIGHT)%Z
  /\ (0 <= x_offset g)%Z /\ (x_offset g + new_width g <= TARGET_WIDTH)%Z
  /\ (0 <= y_offset g)%Z /\ (y_offset g + new_height g <= TARGET_HEIGHT)%Z
  /\ (0 <= (TARGET_WIDTH - new_width g - x_offset g) - x_offset g <= 1)%Z
  /\ (0 <= (TARGET_HEIGHT - new_height g - y_offset g) - y_offset g <= 1)%Z.
Proof.
  apply (letterbox_fits_canvas 1280 720); lia.
Defined.

End VideoExtra.

(** ** frames.py: the reasons of a failed download *)

Module DownloadFacts.

Import Download.




End DownloadFacts.

(** ** cli.py: arguments, the pool and the summary categories *)

Module CliExtra.

Import Cli.

(** *** [categorize_failure] *)

Lemma lower_char_idempotent (c : ascii) :
  Str.lower_char (Str.lower_char c) = Str.lower_char c.
Proof. destruct c as [[] [] [] [] [] [] [] []]; reflexivity. Qed.

Lemma lower_idempotent (s : string) : Str.lower (Str.lower s) = Str.lower s.
Proof.
  induction s as [|c s IH]; cbn; [reflexivity|].
  rewrite lower_char_idempotent, IH. reflexivity.
Qed.

Lemma lower_app (a b : string) :
  Str.lower (a ++ b) = (Str.lower a ++ Str.lower b)%string.
Proof.
  induction a as [|c a IH]; [reflexivity|].
  change (String (Str.lower_char c) (Str.lower (a ++ b)%string)
          = String (Str.lower_char c) (Str.lower a ++ Str.lower b)%string).
  rewrite IH. reflexivity.
Qed.

Lemma contains_app_r (needle a b : string) :
  Str.contains needle b = true -> Str.contains needle (a ++ b) = true.
Proof.
  intros H. induction a as [|c a IH]; [exact H|].
  change (String.prefix needle (String c (a ++ b)%string)
          || Str.contains needle (a ++ b)%string = true).
  rewrite IH. apply orb_true_r.
Qed.

(** The category is found by substring, in any case of letters, and the
    first rule that matches wins: a reason that contains "age" is
    Age-restricted whatever else it says, which includes the failure to
    download a video whose title contains those letters. *)
Theorem categorize_failure_rules (reason title : string) :
  categorize_failure (Str.lower reason) = categorize_failure reason
  /\ (Str.contains "age" (Str.lower reason) = true ->
      categorize_failure reason = "Age-restricted")
  /\ (Str.contains "age" (Str.lower title) = true ->
      categorize_failure (Download.failed_to_download title) = "Age-restricted")
  /\ (categorize_failure reason = "Other" <->
      Str.contains "age" (Str.lower reason) = false
      /\ Str.contains "unavailable" (Str.lower reason) = false
      /\ Str.contains "private" (Str.lower reason) = false
      /\ Str.contains "blocked" (Str.lower reason) = false).
Proof.
  unfold categorize_failure. rewrite lower_idempotent.
  split; [reflexivity|]. split; [|split].
  - intros ->. reflexivity.
  - intros H. unfold Download.failed_to_download. rewrite lower_app.
    rewrite (contains_app_r "age" _ _ H). reflexivity.
  - destruct (Str.contains "age" _), (Str.contains "unavailable" _),
      (Str.contains "private" _), (Str.contains "blocked" _); cbn;
      split; try discriminate; try (intros (? & ? & ? & ?); discriminate);
      intros _; repeat split.
Qed.

Lemma categorize_failure_rules_witness :
  categorize_failure (Str.lower "Video UNAVAILABLE")
  = categorize_failure "Video UNAVAILABLE"
  /\ categorize_failure "Private message: page blocked" = "Age-restricted"
  /\ categorize_failure (Download.failed_to_download "My Garage Tour") = "Age-restricted".
Proof.
  pose proof (categorize_failure_rules "Video UNAVAILABLE" "My Garage Tour") as H1.
  pose proof (categorize_failure_rules "Private message: page blocked" "") as H2.
  split; [exact (proj1 H1)|]. split.
  - apply (proj1 (proj2 H2)). reflexivity.
  - apply (proj1 (proj2 (proj2 H1))). reflexivity.
Defined.

(** *** The checks of the arguments *)

(** Missing dependencies, a position outside [[0, 100]], a limit or a
    number of workers that is not positive: each ends the run with the
    code 1 before anything is fetched, removed or written. *)
Theorem invalid_arguments_exit_1 (w : world) (args : Args.t) (s : Fs.fs) :
  missing_dependencies w <> None
  \/ (Args.position args < 0)%Q
  \/ (100 < Args.position args)%Q
  \/ (exists n, Args.limit args = Some n /\ (n <= 0)%Z)
  \/ (exists n, Args.max_workers args = Some n /\ (n <= 0)%Z) ->
  main w args s = mkRun (Ret 1%Z) [] s.
Proof.
  intros H. unfold main.
  assert (Hv : validate w args = Some 1%Z).
  { unfold validate.
    destruct (missing_dependencies w) as [m|]; [reflexivity|].
    destruct H as [H | H]; [contradiction|].
    destruct (Qle_bool 0 (Args.position args)) eqn:E0;
      [|reflexivity].
    destruct (Qle_bool (Args.position args) 100) eqn:E1; [|reflexivity].
    apply Qle_bool_iff in E0, E1. cbn [andb negb].
    destruct H as [H | [H | H]]; [exfalso; lra | exfalso; lra|].
    destruct H as [(n & -> & Hn) | (n & -> & Hn)].
    - replace (n <=? 0)%Z with true by (symmetry; apply Z.leb_le; exact Hn).
      reflexivity.
    - replace (n <=? 0)%Z with true by (symmetry; apply Z.leb_le; exact Hn).
      destruct (Args.limit args) as [k|]; [destruct (k <=? 0)%Z|]; reflexivity. }
  rewrite Hv. reflexivity.
Qed.

Lemma invalid_arguments_exit_1_witness :
  main Examples.busy
    (Args.mk Examples.channel 150 (1 # 5) 720 None None (Some "chrome") false false)
    Examples.after_first_run
  = mkRun (Ret 1%Z) [] Examples.after_first_run.
Proof.
  apply (invalid_arguments_exit_1 Examples.busy
           (Args.mk Examples.channel 150 (1 # 5) 720 None None (Some "chrome") false false)
           Examples.after_first_run).
  right. right. left. reflexivity.
Defined.

(** *** The pool *)

Lemma processed_map_complete (w : world) (frame_dir : Path) (p : progress)
  (video : VideoMetadata) :
  processed_map (complete w frame_dir p video)
  = record_result w frame_dir (processed_map p) video.
Proof.
  unfold complete, record_result, result_of.
  destruct (extraction w video) as [d|reason|reason]; reflexivity.
Qed.

Lemma processed_map_fold (w : world) (frame_dir : Path) (done : list VideoMetadata)
  (p : progress) :
  processed_map (fold_left (complete w frame_dir) done p)
  = fold_left (record_result w frame_dir) done (processed_map p).
Proof.
  revert p. induction done as [|video done IH]; intros p; cbn; [reflexivity|].
  rewrite IH, processed_map_complete. reflexivity.
Qed.

Lemma record_result_commute (w : world) (frame_dir : Path)
  (m : gmap string FrameResult.t) (x y : VideoMetadata) :
  video_id x <> video_id y ->
  record_result w frame_dir (record_result w frame_dir m x) y
  = record_result w frame_dir (record_result w frame_dir m y) x.
Proof.
  intros Hne. unfold record_result.
  destruct (result_of w frame_dir x), (result_of w frame_dir y); try reflexivity.
  apply insert_insert_ne. congruence.
Qed.

Lemma fold_record_perm (w : world) (frame_dir : Path) (l l' : list VideoMetadata) :
  Permutation l l' -> NoDup (map video_id l) ->
  forall m, fold_left (record_result w frame_dir) l m
            = fold_left (record_result w frame_dir) l' m.
Proof.
  induction 1 as [|x l l' Hp IH|x y l|l l' l'' Hp1 IH1 Hp2 IH2]; intros Hnd m; cbn.
  - reflexivity.
  - apply IH. inversion Hnd. assumption.
  - rewrite record_result_commute; [reflexivity|].
    inversion Hnd as [|? ? Hnotin _]. intros E. apply Hnotin. rewrite E. left.
  - rewrite IH1 by assumption. apply IH2.
    rewrite <- Hp1. exact Hnd.
Qed.

Lemma fold_record_other (w : world) (frame_dir : Path) (l : list VideoMetadata)
  (m : gmap string FrameResult.t) (k : string) :
  k ∉ map video_id l ->
  fold_left (record_result w frame_dir) l m !! k = m !! k.
Proof.
  revert m. induction l as [|x l IH]; intros m Hk; cbn; [reflexivity|].
  cbn in Hk. apply not_elem_of_cons in Hk as [Hx Hl].
  rewrite IH by assumption. unfold record_result.
  destruct (result_of w frame_dir x); [|reflexivity].
  apply lookup_insert_ne. congruence.
Qed.

Lemma fold_record_lookup (w : world) (frame_dir : Path) (l : list VideoMetadata)
  (m : gmap string FrameResult.t) (video : VideoMetadata) :
  NoDup (map video_id l) -> video ∈ l ->
  fold_left (record_result w frame_dir) l m !! video_id video
  = match result_of w frame_dir video with
    | Some result => Some result
    | None => m !! video_id video
    end.
Proof.
  revert m. induction l as [|x l IH]; intros m Hnd Hin; [inversion Hin|].
  cbn in Hnd. apply NoDup_cons in Hnd as [Hx Hnd]. cbn [fold_left].
  apply elem_of_cons in Hin as [-> | Hin].
  - rewrite fold_record_other by assumption. unfold record_result.
    destruct (result_of w frame_dir x); [apply lookup_insert_eq | reflexivity].
  - rewrite IH by assumption.
    destruct (result_of w frame_dir video); [reflexivity|].
    unfold record_result. destruct (result_of w frame_dir x); [|reflexivity].
    apply lookup_insert_ne. intros E. apply Hx. rewrite E.
    apply list_elem_of_fmap. exists video. split; [reflexivity | exact Hin].
Qed.

Lemma run_pool_map (w : world) (args : Args.t) (frame_dir : Path) (p : progress)
  (pending : list VideoMetadata) :
  Permutation (as_completed w pending) pending ->
  NoDup (map video_id pending) ->
  processed_map (fst (run_pool w args frame_dir p pending))
  = fold_left (record_result w frame_dir) pending (processed_map p).
Proof.
  intros Hp Hnd. unfold run_pool. destruct pending as [|v pending]; [reflexivity|].
  cbn [fst]. rewrite processed_map_fold.
  symmetry. apply fold_record_perm; [symmetry; exact Hp | exact Hnd].
Qed.

(** Whatever order the tasks complete in, the results the pool keeps are
    those of handling the tasks in the order they were submitted in, as long
    as the videos have distinct identifiers: the frames handed to the
    assembly do not depend on the order of completion. *)
Theorem completion_order_is_irrelevant (w : world) (args : Args.t) (frame_dir : Path)
  (p : progress) (pending videos : list VideoMetadata) :
  Permutation (as_completed w pending) pending ->
  NoDup (map video_id pending) ->
  processed_map (fst (run_pool w args frame_dir p pending))
  = processed_map (fold_left (complete w frame_dir) pending p)
  /\ assemble (processed_map (fst (run_pool w args frame_dir p pending))) videos
     = assemble (processed_map (fold_left (complete w frame_dir) pending p)) videos.
Proof.
  intros Hp Hnd.
  assert (E : processed_map (fst (run_pool w args frame_dir p pending))
              = processed_map (fold_left (complete w frame_dir) pending p)).
  { rewrite (run_pool_map w args frame_dir p pending Hp Hnd), processed_map_fold.
    reflexivity. }
  split; [exact E | rewrite E; reflexivity].
Qed.

Lemma completion_order_is_irrelevant_witness :
  processed_map
    (fst (run_pool Examples.reversed Examples.args ["frames"] (mkProgress ∅ [] Fs.empty)
            [Examples.video_a; Examples.video_b; Examples.video_c]))
  = processed_map
      (fold_left (complete Examples.reversed ["frames"])
         [Examples.video_a; Examples.video_b; Examples.video_c]
         (mkProgress ∅ [] Fs.empty))
  /\ assemble
       (processed_map
          (fst (run_pool Examples.reversed Examples.args ["frames"]
                  (mkProgress ∅ [] Fs.empty)
                  [Examples.video_a; Examples.video_b; Examples.video_c])))
       [Examples.video_c; Examples.video_a]
     = assemble
         (processed_map
            (fold_left (complete Examples.reversed ["frames"])
               [Examples.video_a; Examples.video_b; Examples.video_c]
               (mkProgress ∅ [] Fs.empty)))
         [Examples.video_c; Examples.video_a].
Proof.
  apply (completion_order_is_irrelevant Examples.reversed Examples.args ["frames"]
           (mkProgress ∅ [] Fs.empty)
           [Examples.video_a; Examples.video_b; Examples.video_c]
           [Examples.video_c; Examples.video_a]).
  - symmetry. apply Permutation_rev.
  - apply (bool_decide_unpack _). vm_compute. exact I.
Defined.

Lemma skipped_complete (w : world) (frame_dir : Path) (p : progress)
  (video : VideoMetadata) :
  length (skipped_details (complete w frame_dir p video))
  = (length (skipped_details p)
     + match result_of w frame_dir video with Some _ => 0 | None => 1 end)%nat.
Proof.
  unfold complete, result_of, skip.
  destruct (extraction w video) as [d|reason|reason]; cbn;
    rewrite ?length_app; cbn; lia.
Qed.

Lemma skipped_fold (w : world) (frame_dir : Path) (done : list VideoMetadata)
  (p : progress) :
  length (skipped_details (fold_left (complete w frame_dir) done p))
  = (length (skipped_details p)
     + length (List.filter (fun video =>
                              match result_of w frame_dir video with
                              | Some _ => false
                              | None => true
                              end) done))%nat.
Proof.
  revert p. induction done as [|video done IH]; intros p; cbn [fold_left List.filter];
    [cbn; lia|].
  rewrite IH, skipped_complete.
  destruct (result_of w frame_dir video); cbn; lia.
Qed.

Lemma filter_length_perm {A : Type} (f : A -> bool) (l l' : list A) :
  Permutation l l' -> length (List.filter f l) = length (List.filter f l').
Proof.
  induction 1 as [|x l l' _ IH|x y l|l l' l'' _ IH1 _ IH2]; cbn.
  - reflexivity.
  - destruct (f x); cbn; rewrite IH; reflexivity.
  - destruct (f x), (f y); reflexivity.
  - rewrite IH1. exact IH2.
Qed.

(** The failure of a task touches no other task.  With distinct
    identifiers and every submitted task completing once, each video whose
    task succeeded has its own result in [processed_map], each video whose
    task failed keeps what the map held for it before, and the failures
    recorded are as many as the tasks that failed. *)
Theorem task_failures_are_isolated (w : world) (args : Args.t) (frame_dir : Path)
  (p : progress) (pending : list VideoMetadata) :
  Permutation (as_completed w pending) pending ->
  NoDup (map video_id pending) ->
  (forall video, video ∈ pending ->
     processed_map (fst (run_pool w args frame_dir p pending)) !! video_id video
     = match result_of w frame_dir video with
       | Some result => Some result
       | None => processed_map p !! video_id video
       end)
  /\ length (skipped_details (fst (run_pool w args frame_dir p pending)))
     = (length (skipped_details p)
        + length (List.filter (fun video =>
                                 match result_of w frame_dir video with
                                 | Some _ => false
                                 | None => true
                                 end) pending))%nat.
Proof.
  intros Hp Hnd. split.
  - intros video Hin. rewrite (run_pool_map w args frame_dir p pending Hp Hnd).
    apply fold_record_lookup; assumption.
  - unfold run_pool. destruct pending as [|v pending]; [cbn; lia|].
    cbn [fst]. rewrite skipped_fold. f_equal.
    apply filter_length_perm, Hp.
Qed.

Lemma task_failures_are_isolated_witness :
  (forall video, video ∈ [Examples.video_a; Examples.video_b; Examples.video_c] ->
     processed_map
       (fst (run_pool Examples.reversed Examples.args ["frames"]
               (mkProgress ∅ [] Fs.empty)
               [Examples.video_a; Examples.video_b; Examples.video_c]))
       !! video_id video
     = match result_of Examples.reversed ["frames"] video with
       | Some result => Some result
       | None => (∅ : gmap string FrameResult.t) !! video_id video
       end)
  /\ length (skipped_details
               (fst (run_pool Examples.reversed Examples.args ["frames"]
                       (mkProgress ∅ [] Fs.empty)
                       [Examples.video_a; Examples.video_b; Examples.video_c])))
     = (0 + length (List.filter
                      (fun video =>
                         match result_of Examples.reversed ["frames"] video with
                         | Some _ => false
                         | None => true
                         end)
                      [Examples.video_a; Examples.video_b; Examples.video_c]))%nat.
Proof.
  apply (task_failures_are_isolated Examples.reversed Examples.args ["frames"]
           (mkProgress ∅ [] Fs.empty)
           [Examples.video_a; Examples.video_b; Examples.video_c]).
  - symmetry. apply Permutation_rev.
  - apply (bool_decide_unpack _). vm_compute. exact I.
Defined.

(** *** A run in which every task succeeds *)





(** *** What is submitted *)

Lemma submitted_app (a b : list event) : submitted (a ++ b) = submitted a ++ submitted b.
Proof. apply omap_app. Qed.

Lemma submitted_submit (l : list VideoMetadata) : submitted (map Submit l) = l.
Proof. induction l as [|v l IH]; cbn; [reflexivity|]. f_equal. exact IH. Qed.

Lemma submitted_cv (l : list Video.cv_event) : submitted (map Cv l) = [].
Proof. induction l as [|e l IH]; cbn; [reflexivity | exact IH]. Qed.

Lemma submitted_prepare (w : world) (args : Args.t) (s : Fs.fs) :
  submitted (snd (prepare_frame_dir w args s)) = [].
Proof.
  unfold prepare_frame_dir.
  destruct (negb (Args.resume args) && Fs.exists_ s (frame_dir_of w args)); reflexivity.
Qed.

Lemma submitted_run_pool (w : world) (args : Args.t) (frame_dir : Path) (p : progress)
  (pending : list VideoMetadata) :
  submitted (snd (run_pool w args frame_dir p pending)) = pending.
Proof.
  unfold run_pool. destruct pending as [|v pending]; [reflexivity|].
  cbn [snd]. change (submitted (map Submit (v :: pending)) = v :: pending).
  apply submitted_submit.
Qed.

(** The tasks of a run are those of the videos the scan did not reuse. *)
Lemma submitted_process (w : world) (args : Args.t) (s : Fs.fs)
  (videos : list VideoMetadata) (reused : gmap string FrameResult.t) :
  (if Args.resume args
   then resume_scan (fst (prepare_frame_dir w args s)) (frame_dir_of w args) videos ∅
   else Ret ∅) = Ret reused ->
  submitted (events (process w args s videos)) = pending_of reused videos.
Proof.
  intros Hscan. unfold process.
  pose proof (submitted_prepare w args s) as Hrm.
  destruct (prepare_frame_dir w args s) as [s1 removal]. cbn [fst snd] in *.
  rewrite Hscan.
  pose proof (submitted_run_pool w args (frame_dir_of w args) (mkProgress reused [] s1)
                (pending_of reused videos)) as Htasks.
  destruct (run_pool _ _ _ _ _) as [p tasks]. cbn [snd] in Htasks.
  destruct (assemble (processed_map p) videos) as [|item items].
  - cbn [events]. rewrite submitted_app, Hrm, Htasks. reflexivity.
  - destruct (Video.compile_video w (item :: items) (Args.frame_duration args))
      as [[r|e] cv]; [|destruct e]; cbn [events];
      rewrite !submitted_app, Hrm, Htasks; cbn; rewrite submitted_cv, app_nil_r;
      reflexivity.
Qed.

Lemma pending_length (reused : gmap string FrameResult.t) (videos : list VideoMetadata) :
  length (pending_of reused videos) <= length videos.
Proof.
  unfold pending_of. induction videos as [|v videos IH]; cbn; [lia|].
  destruct (negb _); cbn; lia.
Qed.

Lemma process_submits_at_most (w : world) (args : Args.t) (s : Fs.fs)
  (videos : list VideoMetadata) :
  length (submitted (events (process w args s videos))) <= length videos.
Proof.
  destruct (if Args.resume args
            then resume_scan (fst (prepare_frame_dir w args s)) (frame_dir_of w args)
                   videos ∅
            else Ret ∅) as [reused|e] eqn:Hscan.
  - rewrite (submitted_process w args s videos reused Hscan). apply pending_length.
  - unfold process.
    pose proof (submitted_prepare w args s) as Hrm.
    destruct (prepare_frame_dir w args s) as [s1 removal]. cbn [fst snd] in *.
    rewrite Hscan. cbn [events]. rewrite Hrm. cbn. lia.
Qed.

(** With [--limit n] a run submits at most [n] extraction tasks. *)
Theorem limit_bounds_submissions (w : world) (args : Args.t) (s : Fs.fs) (n : Z) :
  Args.limit args = Some n ->
  length (submitted (events (main w args s))) <= Z.to_nat n.
Proof.
  intros Hl. unfold main.
  destruct (validate w args); [cbn; lia|].
  destruct (Youtube.fetch_channel_videos _ _ _ _ _ _ _) as [[fetched|e] s1].
  - destruct (limited args fetched) as [|v vs] eqn:E; [cbn; lia|].
    rewrite (process_submits_at_most w args s1 (v :: vs)).
    rewrite <- E. unfold limited. rewrite Hl. rewrite length_take. lia.
  - destruct e; cbn; lia.
Qed.

Lemma limit_bounds_submissions_witness :
  length (submitted
            (events (main Examples.busy
                       (Args.mk Examples.channel 0 (1 # 5) 720 None (Some 1%Z)
                          (Some "chrome") false false)
                       Fs.empty)))
  <= Z.to_nat 1.
Proof.
  apply (limit_bounds_submissions Examples.busy
           (Args.mk Examples.channel 0 (1 # 5) 720 None (Some 1%Z) (Some "chrome")
              false false)
           Fs.empty 1).
  reflexivity.
Defined.

(** *** The number of workers *)

Lemma validate_workers (w : world) (args : Args.t) (m : Z) :
  validate w args = None -> Args.max_workers args = Some m -> (0 < m)%Z.
Proof.
  unfold validate. intros Hv Hm. rewrite Hm in Hv.
  destruct (missing_dependencies w); [discriminate|].
  destruct (negb _); [discriminate|].
  destruct (match Args.limit args with Some n => (n <=? 0)%Z | None => false end);
    [discriminate|].
  destruct (m <=? 0)%Z eqn:E; [discriminate|]. apply Z.leb_gt in E. exact E.
Qed.

(** The pool is created with at least one worker and at most one per
    pending video; never with more than the number asked for with
    [--max-workers]; and with two at most when neither a browser nor a
    number of workers is given. *)
Theorem worker_count_bounds (w : world) (args : Args.t) (frame_dir : Path)
  (p : progress) (pending : list VideoMetadata) (n : Z) :
  validate w args = None ->
  Pool n ∈ snd (run_pool w args frame_dir p pending) ->
  (1 <= n <= Z.of_nat (length pending))%Z
  /\ (forall m, Args.max_workers args = Some m -> (n <= m)%Z)
  /\ (Args.browser args = None -> Args.max_workers args = None -> (n <= 2)%Z).
Proof.
  intros Hv Hin. unfold run_pool in Hin.
  destruct pending as [|v pending]; [inversion Hin|]. cbn [snd] in Hin.
  apply elem_of_cons in Hin as [Hn | Hin].
  2:{ apply list_elem_of_fmap in Hin as (x & Hx & _). discriminate. }
  inversion Hn as [E]. clear Hn. cbn [length].
  split; [lia|]. split.
  - intros m Hm. pose proof (validate_workers w args m Hv Hm) as Hpos.
    unfold settle_workers. rewrite Hm.
    replace (m =? 0)%Z with false by (symmetry; apply Z.eqb_neq; lia).
    destruct (Args.browser args); cbn [fst]; lia.
  - intros Hb Hm. unfold settle_workers. rewrite Hb, Hm. cbn [fst]. lia.
Qed.

Lemma worker_count_bounds_witness :
  (1 <= 2 <= Z.of_nat (length [Examples.video_a; Examples.video_b; Examples.video_c]))%Z
  /\ (forall m, Args.max_workers
                  (Args.mk Examples.channel 0 (1 # 5) 720 None None None false false)
                = Some m -> (2 <= m)%Z)
  /\ (Args.browser (Args.mk Examples.channel 0 (1 # 5) 720 None None None false false)
      = None ->
      Args.max_workers (Args.mk Examples.channel 0 (1 # 5) 720 None None None false false)
      = None -> (2 <= 2)%Z).
Proof.
  apply (worker_count_bounds Examples.busy
           (Args.mk Examples.channel 0 (1 # 5) 720 None None None false false)
           ["frames"] (mkProgress ∅ [] Fs.empty)
           [Examples.video_a; Examples.video_b; Examples.video_c] 2).
  - reflexivity.
  - left.
Defined.

(** *** Resuming with nothing to reuse *)

Lemma prefixes_length (d q : Path) : q ∈ Fs.prefixes d -> length q <= length d.
Proof.
  revert q. induction d as [|x d IH]; intros q H; cbn in H.
  - apply list_elem_of_singleton in H as ->. cbn. lia.
  - apply elem_of_cons in H as [-> | H]; [cbn; lia|].
    apply list_elem_of_fmap in H as (q' & -> & Hq'). cbn. specialize (IH q' Hq'). lia.
Qed.

Lemma exists_mkdir_below (s : Fs.fs) (d : Path) (x : string) :
  Fs.exists_ s (d ++ [x]) = false -> Fs.exists_ (Fs.mkdir s d) (d ++ [x]) = false.
Proof.
  unfold Fs.exists_, Fs.mkdir. cbn. rewrite !orb_false_iff, !bool_decide_eq_false.
  intros [Hf Hd]. split; [exact Hf|].
  intros H. apply elem_of_union in H as [H | H]; [contradiction|].
  apply elem_of_list_to_set in H. apply prefixes_length in H.
  rewrite length_app in H. cbn in H. lia.
Qed.

(** With [--resume] and no frame file on disk for any of the videos, the
    scan reuses nothing and raises nothing, and a task is submitted for
    every video, in the order of the list. *)
Theorem resume_without_frames_submits_all (w : world) (args : Args.t) (s : Fs.fs)
  (videos : list VideoMetadata) :
  Args.resume args = true ->
  Forall (fun video =>
            Fs.exists_ s (frame_dir_of w args ++ [(video_id video ++ ".png")%string])
            = false) videos ->
  submitted (events (process w args s videos)) = videos.
Proof.
  intros Hr Hnone.
  rewrite (submitted_process w args s videos ∅).
  - apply CliFacts.pending_of_empty.
  - rewrite Hr, (CliFacts.prepare_resume w args s Hr). cbn [fst].
    apply CliFacts.resume_scan_nothing.
    eapply Forall_impl; [exact Hnone|]. cbn beta. intros video H.
    apply exists_mkdir_below, H.
Qed.

Lemma resume_without_frames_submits_all_witness :
  submitted (events (process Examples.busy Examples.args_resume Examples.with_snapshot
                       [Examples.video_a; Examples.video_b]))
  = [Examples.video_a; Examples.video_b].
Proof.
  apply (resume_without_frames_submits_all Examples.busy Examples.args_resume
           Examples.with_snapshot [Examples.video_a; Examples.video_b]).
  - reflexivity.
  - repeat constructor.
Defined.

(** *** The name of the output file *)

Lemma ends_with_app (a b : string) : Str.ends_with (a ++ b) b = true.
Proof.
  induction a as [|c a IH].
  - change (Str.ends_with b b = true). destruct b as [|c b]; [reflexivity|].
    change (String.eqb (String c b) (String c b) || Str.ends_with b (String c b) = true).
    rewrite String.eqb_refl. reflexivity.
  - change (String.eqb (String c (a ++ b)) b || Str.ends_with (a ++ b) b = true).
    rewrite IH. apply orb_true_r.
Qed.

Lemma ends_with_mp4_named (r : string) :
  Str.ends_with (Str.lower r) ".mp4" = true ->
  Str.nonempty r && negb (String.eqb r ".") = true.
Proof.
  destruct r as [|c r]; [discriminate|].
  destruct r as [|c' r]; [|intros _; cbn; destruct (Ascii.eqb c "."); reflexivity].
  intros H. cbn in H. rewrite orb_false_r in H.
  destruct (Ascii.eqb (Str.lower_char c) ".") eqn:E; discriminate.
Qed.

(** The file name always ends with [.mp4], in some case of letters; a name
    that does so already is kept as it is, so settling the name twice
    changes nothing. *)
Theorem output_filename_is_mp4 (name : string) :
  Str.ends_with (Str.lower (output_filename name)) ".mp4" = true
  /\ (Str.ends_with (Str.lower name) ".mp4" = true -> output_filename name = name)
  /\ output_filename (output_filename name) = output_filename name.
Proof.
  assert (Hkeep : forall r, Str.ends_with (Str.lower r) ".mp4" = true ->
                            output_filename r = r).
  { intros r H. unfold output_filename. rewrite (ends_with_mp4_named r H), H.
    reflexivity. }
  assert (Hends : Str.ends_with (Str.lower (output_filename name)) ".mp4" = true).
  { unfold output_filename.
    destruct (Str.nonempty name && negb (String.eqb name ".")); [|reflexivity].
    destruct (Str.ends_with (Str.lower name) ".mp4") eqn:E; [exact E|].
    rewrite lower_app. apply (ends_with_app (Str.lower name) ".mp4"). }
  split; [exact Hends|]. split; [apply Hkeep | apply Hkeep, Hends].
Qed.

End CliExtra.

(** ** video.py and youtube.py: failures on the way *)

Module FailureFacts.

Import Video.
Local Open Scope Q_scope.

(** With no frame, or a hold duration that is not positive, the
    compilation raises [VideoCompilationError] before the writer is opened:
    nothing is written. *)
Theorem compile_video_refuses_bad_input (w : world) (frames : list FrameResult.t)
  (h : Q) :
  frames = [] \/ h <= 0 ->
  exists message, compile_video w frames h = (Raise (VideoCompilationError message), []).
Proof. apply VideoFacts.compile_video_rejects. Qed.

Lemma compile_video_refuses_bad_input_witness :
  exists message,
    compile_video Examples.busy [FrameResult.mk Examples.video_a ["a.png"] None] 0
    = (Raise (VideoCompilationError message), []).
Proof.
  apply (compile_video_refuses_bad_input Examples.busy
           [FrameResult.mk Examples.video_a ["a.png"] None] 0).
  right. lra.
Defined.

Lemma write_frames_stops (w : world) (before after : list FrameResult.t)
  (bad : FrameResult.t) :
  Forall (fun item => imread w (FrameResult.frame_path item) = true) before ->
  imread w (FrameResult.frame_path bad) = false ->
  write_frames w (before ++ bad :: after)
  = (Raise (VideoCompilationError "Unable to load frame image"),
     map Wrote (map FrameResult.frame_path before)).
Proof.
  intros Hb Hbad. induction Hb as [|item before Hr _ IH]; cbn.
  - rewrite Hbad. reflexivity.
  - rewrite Hr, IH. reflexivity.
Qed.

(** When a frame image cannot be read, the compilation raises
    [VideoCompilationError] at that frame: the frames before it have been
    written to the output already, none after it is, and the writer is
    released all the same. *)
Theorem unreadable_frame_stops_compilation (w : world)
  (before after : list FrameResult.t) (bad : FrameResult.t) (h : Q) :
  0 < h -> writer_opens w = true ->
  Forall (fun item => imread w (FrameResult.frame_path item) = true) before ->
  imread w (FrameResult.frame_path bad) = false ->
  exists message,
    compile_video w (before ++ bad :: after) h
    = (Raise (VideoCompilationError message),
       Opened (frame_rate h) :: map Wrote (map FrameResult.frame_path before)
         ++ [Released]).
Proof.
  intros Hh Hw Hb Hbad. eexists. unfold compile_video.
  destruct (before ++ bad :: after) as [|item items] eqn:E;
    [destruct before; discriminate|].
  replace (Qle_bool h 0) with false
    by (symmetry; apply FramesFacts.Qle_bool_false; exact Hh).
  rewrite Hw. cbn [negb]. rewrite <- E, (write_frames_stops w before after bad Hb Hbad).
  reflexivity.
Qed.

Lemma unreadable_frame_stops_compilation_witness :
  exists message,
    compile_video Examples.damaged
      ([FrameResult.mk Examples.video_a ["a.png"] None]
       ++ FrameResult.mk Examples.video_b ["b.png"] None
          :: [FrameResult.mk Examples.video_c ["c.png"] None])
      (1 # 5)
    = (Raise (VideoCompilationError message),
       Opened (frame_rate (1 # 5))
         :: map Wrote (map FrameResult.frame_path
                         [FrameResult.mk Examples.video_a ["a.png"] None])
         ++ [Released]).
Proof.
  apply (unreadable_frame_stops_compilation Examples.damaged
           [FrameResult.mk Examples.video_a ["a.png"] None]
           [FrameResult.mk Examples.video_c ["c.png"] None]
           (FrameResult.mk Examples.video_b ["b.png"] None) (1 # 5)).
  - reflexivity.
  - reflexivity.
  - repeat constructor.
  - reflexivity.
Defined.



End FailureFacts.
